(** * gemelli tutorial notebooks: syntax, effects and table operations

    The sources are the Jupyter notebooks under [ipynb/tutorials/].  A
    notebook is a list of cells; a code cell is a list of Python statements
    (or one IPython shell escape) together with the outputs recorded when its
    author ran it.  The first part of this development transcribes the code
    cells as abstract syntax, statement by statement (comments, among them the
    commented-out [os.mkdir] calls, are not statements and are left out).  The
    second part gives every call and shell escape its effect on the
    environment, resolving called names through the imports executed so far.
    The third part models the pandas operations of the two cells that reshape
    sample metadata and states what those cells write. *)

From stdpp Require Import gmap strings list.
From Stdlib Require Import ZArith Ascii Permutation Sorted.

Set Warnings "-register-all".

Open Scope string_scope.
Open Scope list_scope.

(** ** Abstract syntax of the code cells *)

(** The tab character of the [sep='\t'] arguments. *)
Definition tab : string := String (Ascii.ascii_of_nat 9) EmptyString.

(** Python expressions.  A dotted module name is kept as the list of its
    components. *)
Inductive expr : Type :=
  | EName (x : string)
  | EStr (s : string)
  | EInt (n : Z)
  | EBool (b : bool)
  | EAttr (e : expr) (a : string)
  | ECall (f : expr) (args : list expr) (kwargs : list (string * expr))
  | EList (es : list expr)
  | ETuple (es : list expr)
  | EDict (kvs : list (expr * expr))
  | ESubscript (e : expr) (i : expr)
  | ELambda (params : list string) (body : expr)
  | EAwait (e : expr).

(** Python statements, and the IPython shell escape [!command].  The compound
    statements carry their bodies; [async] marks the [async def], [async for]
    and [async with] forms. *)
Inductive stmt : Type :=
  | SImport (m : list string) (asname : option string)
  | SFromImport (m : list string) (names : list string)
  | SAssign (target value : expr)
  | SExpr (e : expr)
  | SShell (argv : list string)
  | SDef (async : bool) (name : string) (params : list string) (body : list stmt)
  | SClass (name : string) (body : list stmt)
  | SFor (async : bool) (target iter : expr) (body : list stmt)
  | SWhile (cond : expr) (body : list stmt)
  | SIf (cond : expr) (body orelse : list stmt)
  | STry (body handlers final : list stmt)
  | SWith (async : bool) (ctx : expr) (body : list stmt)
  | SRaise (e : expr)
  | SReturn (e : expr).

(** Recorded outputs.  A line of a stream that has the shape
    [<file>:<line>: <Category>: <message>] is a Python warning record; the
    indented line under it echoes the source line that raised it.  Message
    texts are not kept. *)
Inductive stream : Type := Stdout | Stderr.

Inductive log_line : Type :=
  | LWarning (file : string) (line : nat) (category : string)
  | LEcho
  | LText.

Inductive output : Type :=
  | OStream (name : stream) (lines : list log_line)
  | OExecuteResult.

Inductive cell : Type :=
  | Markdown
  | Code (source : list stmt) (outputs : list output).

(** One notebook document: the cells of its ["cells"] array, in order. *)
Definition notebook : Type := list cell.

(** ** The notebooks *)

(** [IBD-Tutorial-QIIME2-API.ipynb] *)

Definition ibd_cell2 : cell :=
  Code
   [ SImport ["os"] None;
     SImport ["warnings"] None;
     SImport ["qiime2"] (Some "q2");
     SExpr (ECall (EAttr (EName "warnings") "filterwarnings")
        [EStr "ignore"]
        [("category", EName "DeprecationWarning")]);
     SExpr (ECall (EAttr (EName "warnings") "simplefilter")
        []
        [("action", EStr "ignore");
         ("category", EName "FutureWarning")]);
     SAssign (EName "table")
      (ECall (EAttr (EAttr (EName "q2") "Artifact") "load")
          [EStr "IBD-2538/data/table.qza"]
          []);
     SAssign (EName "rarefied_table")
      (ECall (EAttr (EAttr (EName "q2") "Artifact") "load")
          [EStr "IBD-2538/data/rarefied-table.qza"]
          []);
     SAssign (EName "metadata")
      (ECall (EAttr (EAttr (EName "q2") "Metadata") "load")
          [EStr "IBD-2538/data/metadata.tsv"]
          []);
     SAssign (EName "tree")
      (ECall (EAttr (EAttr (EName "q2") "Artifact") "load")
          [EStr "IBD-2538/data/sepp-insertion-tree.qza"]
          []);
     SAssign (EName "taxonomy")
      (ECall (EAttr (EAttr (EName "q2") "Artifact") "load")
          [EStr "IBD-2538/data/taxonomy.qza"]
          []) ]
   [].

Definition ibd_cell4 : cell :=
  Code
   [ SFromImport ["qiime2"; "plugins"; "gemelli"; "actions"] ["rpca"];
     SFromImport ["qiime2"; "plugins"; "emperor"; "actions"] ["plot"; "biplot"];
     SFromImport ["qiime2"; "plugins"; "diversity"; "actions"] ["beta_phylogenetic"; "pcoa"] ]
   [].

Definition ibd_cell5 : cell :=
  Code
   [ SAssign (EName "unweighted_unifrac_distance")
      (ECall (EName "beta_phylogenetic")
          [EName "rarefied_table";
           EName "tree";
           EStr "unweighted_unifrac"]
          []);
     SAssign (EName "weighted_unifrac_distance")
      (ECall (EName "beta_phylogenetic")
          [EName "rarefied_table";
           EName "tree";
           EStr "weighted_unifrac"]
          []);
     SAssign (EName "unweighted_unifrac_pcoa")
      (ECall (EName "pcoa")
          [EAttr (EName "unweighted_unifrac_distance") "distance_matrix"]
          []);
     SAssign (EName "weighted_unifrac_pcoa")
      (ECall (EName "pcoa")
          [EAttr (EName "weighted_unifrac_distance") "distance_matrix"]
          []);
     SAssign (EName "unweighted_unifrac_pcoa_plot")
      (ECall (EName "plot")
          [EAttr (EName "unweighted_unifrac_pcoa") "pcoa";
           EName "metadata"]
          []);
     SAssign (EName "weighted_unifrac_pcoa_plot")
      (ECall (EName "plot")
          [EAttr (EName "weighted_unifrac_pcoa") "pcoa";
           EName "metadata"]
          []);
     SAssign (ETuple [EName "rpca_biplot"; EName "rpca_distance"])
      (ECall (EName "rpca")
          [EName "table"]
          [("min_sample_count", EInt 5000)]);
     SAssign (EName "rpca_biplot_emperor")
      (ECall (EName "biplot")
          [EName "rpca_biplot";
           EName "metadata"]
          []);
     SAssign (EName "output_path")
      (EStr "IBD-2538/core-metric-output");
     SExpr (ECall (EAttr (EAttr (EName "unweighted_unifrac_pcoa_plot") "visualization") "save")
        [ECall (EAttr (EAttr (EName "os") "path") "join")
            [EName "output_path";
             EStr "unweighted-unifrac-distance-pcoa.qzv"]
            []]
        []);
     SExpr (ECall (EAttr (EAttr (EName "weighted_unifrac_pcoa_plot") "visualization") "save")
        [ECall (EAttr (EAttr (EName "os") "path") "join")
            [EName "output_path";
             EStr "weighted-unifrac-distance-pcoa.qzv"]
            []]
        []);
     SExpr (ECall (EAttr (EAttr (EName "rpca_biplot_emperor") "visualization") "save")
        [ECall (EAttr (EAttr (EName "os") "path") "join")
            [EName "output_path";
             EStr "RPCA-biplot.qzv"]
            []]
        []) ]
   [OStream Stderr [LWarning "/Users/cameronmartino/miniconda2/envs/qiime2-2019.7/lib/python3.6/site-packages/skbio/stats/ordination/_principal_coordinate_analysis.py" 152 "RuntimeWarning"; LEcho; LWarning "/Users/cameronmartino/miniconda2/envs/qiime2-2019.7/lib/python3.6/site-packages/skbio/stats/ordination/_principal_coordinate_analysis.py" 152 "RuntimeWarning"; LEcho]; OExecuteResult].

Definition ibd_cell11 : cell :=
  Code
   [ SFromImport ["qiime2"; "plugins"; "gemelli"; "actions"] ["ctf"];
     SAssign (EName "ctf_results")
      (ECall (EName "ctf")
          [EName "table";
           EName "metadata";
           EStr "host_subject_id";
           EStr "timepoint"]
          [("feature_metadata", ECall (EAttr (EName "taxonomy") "view")
              [EAttr (EName "q2") "Metadata"]
              [])]);
     SExpr (EName "ctf_results") ]
   [OExecuteResult].

Definition ibd_cell14 : cell :=
  Code
   [ SImport ["pandas"] (Some "pd");
     SFromImport ["qiime2"] ["Metadata"];
     SAssign (EName "mf")
      (ECall (EAttr (EName "pd") "read_csv")
          [EStr "IBD-2538/data/metadata.tsv"]
          [("sep", EStr tab);
           ("index_col", EInt 0)]);
     SAssign (EName "mf")
      (ECall (EAttr (ECall (EAttr (EName "mf") "groupby")
          [EStr "host_subject_id"]
          []) "agg")
          [EDict [(EStr "ibd", EStr "first"); (EStr "active_disease", EStr "first")]]
          []);
     SAssign (EAttr (EAttr (EName "mf") "index") "name")
      (EStr "#SampleID");
     SExpr (ECall (EAttr (EName "mf") "to_csv")
        [EStr "IBD-2538/data/subject-metadata.tsv"]
        [("sep", EStr tab)]);
     SExpr (ECall (EAttr (EName "mf") "head")
        [EInt 5]
        []) ]
   [OExecuteResult].

Definition ibd_cell16 : cell :=
  Code
   [ SAssign (EName "subject_biplot_emperor")
      (ECall (EName "biplot")
          [EAttr (EName "ctf_results") "subject_biplot";
           ECall (EAttr (EName "q2") "Metadata")
              [EName "mf"]
              []]
          [("feature_metadata", ECall (EAttr (EName "taxonomy") "view")
              [EAttr (EName "q2") "Metadata"]
              []);
           ("number_of_features", EInt 100)]);
     SExpr (ECall (EAttr (EAttr (EName "subject_biplot_emperor") "visualization") "save")
        [EStr "IBD-2538/ctf-results/subject_biplot.qzv"]
        []) ]
   [].

Definition ibd_cell18 : cell :=
  Code
   [ SFromImport ["qiime2"; "plugins"; "qurro"; "actions"] ["loading_plot"];
     SAssign (EName "qurro_plot")
      (ECall (EName "loading_plot")
          [EAttr (EName "ctf_results") "subject_biplot";
           EName "table";
           EName "metadata"]
          [("feature_metadata", ECall (EAttr (EName "taxonomy") "view")
              [EAttr (EName "q2") "Metadata"]
              [])]);
     SExpr (ECall (EAttr (EAttr (EName "qurro_plot") "visualization") "save")
        [EStr "IBD-2538/ctf-results/qurro.qzv"]
        []) ]
   [OStream Stdout [LText; LText]; OExecuteResult].

Definition ibd_cell20 : cell :=
  Code
   [ SImport ["pandas"] (Some "pd");
     SAssign (EName "metadata_one")
      (ECall (EAttr (EName "pd") "read_csv")
          [EStr "IBD-2538/data/metadata.tsv"]
          [("sep", EStr tab);
           ("index_col", EInt 0)]);
     SAssign (EName "metadata_two")
      (ESubscript (ECall (EAttr (EName "pd") "read_csv")
          [EStr "IBD-2538/ctf-results/sample_plot_data.tsv"]
          [("sep", EStr tab);
           ("index_col", EInt 0)]) (EList [EStr "Current_Natural_Log_Ratio"]));
     SAssign (EName "log_ratio_metdata")
      (ECall (EAttr (EName "pd") "concat")
          [EList [EName "metadata_two"; EName "metadata_one"]]
          [("axis", EInt 1)]);
     SAssign (EName "log_ratio_metdata")
      (ECall (EAttr (EName "log_ratio_metdata") "dropna")
          []
          [("subset", EList [EStr "Current_Natural_Log_Ratio"])]);
     SAssign (EAttr (EName "log_ratio_metdata") "index")
      (ECall (EAttr (EAttr (EName "log_ratio_metdata") "index") "astype")
          [EName "str"]
          []);
     SAssign (EName "log_ratio_metdata")
      (ESubscript (EName "log_ratio_metdata") (EList [EStr "timepoint"; EStr "host_subject_id"; EStr "ibd"; EStr "Current_Natural_Log_Ratio"]));
     SAssign (EAttr (EAttr (EName "log_ratio_metdata") "index") "name")
      (EStr "#SampleID");
     SExpr (ECall (EAttr (EName "log_ratio_metdata") "to_csv")
        [EStr "IBD-2538/ctf-results/merged_sample_plot_data.tsv"]
        [("sep", EStr tab)]);
     SExpr (ECall (EAttr (EName "log_ratio_metdata") "head")
        [EInt 2]
        []) ]
   [OExecuteResult].

Definition ibd_cell22 : cell :=
  Code
   [ SFromImport ["qiime2"; "plugins"; "longitudinal"; "actions"] ["volatility"; "linear_mixed_effects"];
     SAssign (EName "temporal_plot")
      (ECall (EName "volatility")
          [ECall (EAttr (EName "q2") "Metadata")
              [EName "log_ratio_metdata"]
              [];
           EStr "timepoint"]
          [("individual_id_column", EStr "host_subject_id");
           ("default_group_column", EStr "ibd");
           ("default_metric", EStr "Current_Natural_Log_Ratio")]);
     SExpr (ECall (EAttr (EAttr (EName "temporal_plot") "visualization") "save")
        [EStr "IBD-2538/ctf-results/log_ratio_plot.qzv"]
        []) ]
   [].

Definition ibd_cell24 : cell :=
  Code
   [ SAssign (EName "lme_plot")
      (ECall (EName "linear_mixed_effects")
          [ECall (EAttr (EName "q2") "Metadata")
              [EName "log_ratio_metdata"]
              [];
           EStr "timepoint"]
          [("individual_id_column", EStr "host_subject_id");
           ("group_columns", EStr "ibd");
           ("metric", EStr "Current_Natural_Log_Ratio")]);
     SExpr (ECall (EAttr (EAttr (EName "lme_plot") "visualization") "save")
        [EStr "IBD-2538/ctf-results/lme_log_ratio.qzv"]
        []) ]
   [OStream Stderr [LWarning "/Users/cmartino/miniconda3/envs/qiime2-2021.2.songbird.mmvec/lib/python3.6/site-packages/q2_longitudinal/_longitudinal.py" 291 "UserWarning"; LEcho]].

Definition ibd : notebook :=
  [ Markdown;
    Markdown;
    ibd_cell2;
    Markdown;
    ibd_cell4;
    ibd_cell5;
    Markdown;
    Markdown;
    Markdown;
    Markdown;
    Markdown;
    ibd_cell11;
    Markdown;
    Markdown;
    ibd_cell14;
    Markdown;
    ibd_cell16;
    Markdown;
    ibd_cell18;
    Markdown;
    ibd_cell20;
    Markdown;
    ibd_cell22;
    Markdown;
    ibd_cell24;
    Markdown ].

(** [Phylogenetic-IBD-Tutorial-QIIME2-API.ipynb] *)

Definition phylo_ibd_cell2 : cell :=
  Code
   [ SImport ["os"] None;
     SImport ["warnings"] None;
     SImport ["qiime2"] (Some "q2");
     SExpr (ECall (EAttr (EName "warnings") "filterwarnings")
        [EStr "ignore"]
        [("category", EName "DeprecationWarning")]);
     SExpr (ECall (EAttr (EName "warnings") "simplefilter")
        []
        [("action", EStr "ignore");
         ("category", EName "FutureWarning")]);
     SAssign (EName "table")
      (ECall (EAttr (EAttr (EName "q2") "Artifact") "load")
          [EStr "IBD-2538/data/table.qza"]
          []);
     SAssign (EName "rarefied_table")
      (ECall (EAttr (EAttr (EName "q2") "Artifact") "load")
          [EStr "IBD-2538/data/rarefied-table.qza"]
          []);
     SAssign (EName "metadata")
      (ECall (EAttr (EAttr (EName "q2") "Metadata") "load")
          [EStr "IBD-2538/data/metadata.tsv"]
          []);
     SAssign (EName "tree")
      (ECall (EAttr (EAttr (EName "q2") "Artifact") "load")
          [EStr "IBD-2538/data/sepp-insertion-tree.qza"]
          []);
     SAssign (EName "taxonomy")
      (ECall (EAttr (EAttr (EName "q2") "Artifact") "load")
          [EStr "IBD-2538/data/taxonomy.qza"]
          []) ]
   [].

Definition phylo_ibd_cell4 : cell :=
  Code
   [ SFromImport ["qiime2"; "plugins"; "gemelli"; "actions"] ["phylogenetic_ctf_with_taxonomy"];
     SFromImport ["qiime2"; "plugins"; "fragment_insertion"; "methods"] ["filter_features"];
     SAssign (EName "table")
      (EAttr (ECall (EName "filter_features")
          [EName "table";
           EName "tree"]
          []) "filtered_table");
     SAssign (EName "ctf_results")
      (ECall (EName "phylogenetic_ctf_with_taxonomy")
          [EName "table";
           EName "tree";
           ECall (EAttr (EName "taxonomy") "view")
              [EAttr (EName "q2") "Metadata"]
              [];
           EName "metadata";
           EStr "host_subject_id";
           EStr "timepoint"]
          [("min_feature_frequency", EInt 10)]);
     SExpr (EName "ctf_results") ]
   [OExecuteResult].

Definition phylo_ibd_cell7 : cell :=
  Code
   [ SImport ["pandas"] (Some "pd");
     SFromImport ["qiime2"] ["Metadata"];
     SImport ["numpy"] (Some "np");
     SFromImport ["biom"] ["Table"];
     SFromImport ["skbio"] ["OrdinationResults"];
     SAssign (EName "mf")
      (ECall (EAttr (EName "pd") "read_csv")
          [EStr "IBD-2538/data/metadata.tsv"]
          [("sep", EStr tab);
           ("index_col", EInt 0)]);
     SAssign (EName "mf")
      (ECall (EAttr (ECall (EAttr (EName "mf") "groupby")
          [EStr "host_subject_id"]
          []) "agg")
          [EDict [(EStr "ibd", EStr "first"); (EStr "active_disease", EStr "first")]]
          []);
     SAssign (EAttr (EAttr (EName "mf") "index") "name")
      (EStr "#SampleID");
     SExpr (ECall (EAttr (EName "mf") "to_csv")
        [EStr "IBD-2538/data/subject-metadata.tsv"]
        [("sep", EStr tab)]);
     SExpr (ECall (EAttr (EName "mf") "head")
        [EInt 5]
        []) ]
   [OExecuteResult].

Definition phylo_ibd_cell8 : cell :=
  Code
   [ SAssign (EName "phylo_ctf_taxonomy")
      (ECall (EAttr (ECall (EAttr (EAttr (EName "ctf_results") "t2t_taxonomy") "view")
          [EAttr (EName "q2") "Metadata"]
          []) "to_dataframe")
          []
          []);
     SAssign (EName "phylo_ctf_feature_loadings")
      (ECall (EAttr (EAttr (ECall (EAttr (EAttr (EName "ctf_results") "subject_biplot") "view")
          [EName "OrdinationResults"]
          []) "features") "rename")
          [EDict [(EInt 0, EStr "PC1"); (EInt 1, EStr "PC2"); (EInt 2, EStr "PC3")]]
          [("axis", EInt 1)]);
     SAssign (EName "phylo_ctf_taxonomy_and_loadings")
      (ECall (EAttr (EName "pd") "concat")
          [EList [EName "phylo_ctf_taxonomy"; EName "phylo_ctf_feature_loadings"]]
          [("axis", EInt 1)]);
     SAssign (EAttr (EAttr (EName "phylo_ctf_taxonomy_and_loadings") "index") "name")
      (EStr "featureid");
     SExpr (ECall (EAttr (EName "phylo_ctf_taxonomy_and_loadings") "head")
        [EInt 5]
        []) ]
   [OExecuteResult].

Definition phylo_ibd_cell10 : cell :=
  Code
   [ SFromImport ["qiime2"; "plugins"; "empress"; "actions"] ["community_plot"];
     SAssign (EName "joint_tree_biplot")
      (ECall (EName "community_plot")
          [EAttr (EName "ctf_results") "counts_by_node_tree";
           EAttr (EName "ctf_results") "subject_table";
           ECall (EAttr (EName "q2") "Metadata")
              [EName "mf"]
              []]
          [("pcoa", EAttr (EName "ctf_results") "subject_biplot");
           ("feature_metadata", ECall (EAttr (EName "q2") "Metadata")
              [EName "phylo_ctf_taxonomy_and_loadings"]
              []);
           ("number_of_features", EInt 50);
           ("ignore_missing_samples", EBool false);
           ("filter_extra_samples", EBool false);
           ("filter_missing_features", EBool true)]);
     SExpr (ECall (EAttr (EAttr (EName "joint_tree_biplot") "visualization") "save")
        [EStr "IBD-2538/ctf-results/empress.qzv"]
        []) ]
   [].

Definition phylo_ibd_cell11 : cell :=
  Code
   [ SFromImport ["qiime2"; "plugins"; "qurro"; "actions"] ["loading_plot"];
     SAssign (EName "qurro_plot")
      (ECall (EName "loading_plot")
          [EAttr (EName "ctf_results") "subject_biplot";
           EAttr (EName "ctf_results") "counts_by_node";
           EName "metadata"]
          [("feature_metadata", ECall (EAttr (EAttr (EName "ctf_results") "t2t_taxonomy") "view")
              [EAttr (EName "q2") "Metadata"]
              [])]);
     SExpr (ECall (EAttr (EAttr (EName "qurro_plot") "visualization") "save")
        [EStr "IBD-2538/ctf-results/qurro.qzv"]
        []) ]
   [OExecuteResult].

Definition phylo_ibd_cell13 : cell :=
  Code
   [ SImport ["pandas"] (Some "pd");
     SAssign (EName "metadata_one")
      (ECall (EAttr (EName "pd") "read_csv")
          [EStr "IBD-2538/data/metadata.tsv"]
          [("sep", EStr tab);
           ("index_col", EInt 0)]);
     SAssign (EName "metadata_two")
      (ESubscript (ECall (EAttr (EName "pd") "read_csv")
          [EStr "IBD-2538/ctf-results/sample_plot_data.tsv"]
          [("sep", EStr tab);
           ("index_col", EInt 0)]) (EList [EStr "Current_Natural_Log_Ratio"]));
     SAssign (EName "log_ratio_metdata")
      (ECall (EAttr (EName "pd") "concat")
          [EList [EName "metadata_two"; EName "metadata_one"]]
          [("axis", EInt 1)]);
     SAssign (EName "log_ratio_metdata")
      (ECall (EAttr (EName "log_ratio_metdata") "dropna")
          []
          [("subset", EList [EStr "Current_Natural_Log_Ratio"])]);
     SAssign (EAttr (EName "log_ratio_metdata") "index")
      (ECall (EAttr (EAttr (EName "log_ratio_metdata") "index") "astype")
          [EName "str"]
          []);
     SAssign (EName "log_ratio_metdata")
      (ESubscript (EName "log_ratio_metdata") (EList [EStr "timepoint"; EStr "host_subject_id"; EStr "ibd"; EStr "Current_Natural_Log_Ratio"]));
     SAssign (EAttr (EAttr (EName "log_ratio_metdata") "index") "name")
      (EStr "#SampleID");
     SExpr (ECall (EAttr (EName "log_ratio_metdata") "to_csv")
        [EStr "IBD-2538/ctf-results/merged_sample_plot_data.tsv"]
        [("sep", EStr tab)]);
     SExpr (ECall (EAttr (EName "log_ratio_metdata") "head")
        [EInt 2]
        []) ]
   [OExecuteResult].

Definition phylo_ibd_cell15 : cell :=
  Code
   [ SFromImport ["qiime2"; "plugins"; "longitudinal"; "actions"] ["volatility"; "linear_mixed_effects"];
     SAssign (EName "temporal_plot")
      (ECall (EName "volatility")
          [ECall (EAttr (EName "q2") "Metadata")
              [EName "log_ratio_metdata"]
              [];
           EStr "timepoint"]
          [("individual_id_column", EStr "host_subject_id");
           ("default_group_column", EStr "ibd");
           ("default_metric", EStr "Current_Natural_Log_Ratio")]);
     SExpr (ECall (EAttr (EAttr (EName "temporal_plot") "visualization") "save")
        [EStr "IBD-2538/ctf-results/log_ratio_plot.qzv"]
        []) ]
   [OExecuteResult].

Definition phylo_ibd_cell17 : cell :=
  Code
   [ SAssign (EName "lme_plot")
      (ECall (EName "linear_mixed_effects")
          [ECall (EAttr (EName "q2") "Metadata")
              [EName "log_ratio_metdata"]
              [];
           EStr "timepoint"]
          [("individual_id_column", EStr "host_subject_id");
           ("group_columns", EStr "ibd");
           ("metric", EStr "Current_Natural_Log_Ratio")]);
     SExpr (ECall (EAttr (EAttr (EName "lme_plot") "visualization") "save")
        [EStr "IBD-2538/ctf-results/lme_log_ratio.qzv"]
        []) ]
   [OStream Stderr [LWarning "/Users/cmartino/miniconda3/envs/qiime2-2021.2.songbird.mmvec/lib/python3.6/site-packages/q2_longitudinal/_longitudinal.py" 291 "UserWarning"; LEcho]; OExecuteResult].

Definition phylo_ibd : notebook :=
  [ Markdown;
    Markdown;
    phylo_ibd_cell2;
    Markdown;
    phylo_ibd_cell4;
    Markdown;
    Markdown;
    phylo_ibd_cell7;
    phylo_ibd_cell8;
    Markdown;
    phylo_ibd_cell10;
    phylo_ibd_cell11;
    Markdown;
    phylo_ibd_cell13;
    Markdown;
    phylo_ibd_cell15;
    Markdown;
    phylo_ibd_cell17;
    Markdown ].

(** [Phylogenetic-RPCA-moving-pictures.ipynb, first document] *)

Definition phylo_rpca_cell2 : cell :=
  Code
   [ SShell ["cd"; "qiime2-moving-pictures-tutorial"] ]
   [].

Definition phylo_rpca_cell4 : cell :=
  Code
   [ SShell ["qiime"; "dev"; "refresh-cache"] ]
   [OStream Stdout [LText]].

Definition phylo_rpca_cell5 : cell :=
  Code
   [ SShell ["qiime"; "gemelli"; "phylogenetic-rpca-with-taxonomy"; "--i-table"; "qiime2-moving-pictures-tutorial/table.qza"; "--i-phylogeny"; "qiime2-moving-pictures-tutorial/rooted-tree.qza"; "--m-taxonomy-file"; "qiime2-moving-pictures-tutorial/taxonomy.qza"; "--p-min-feature-count"; "10"; "--p-min-sample-count"; "500"; "--o-biplot"; "qiime2-moving-pictures-tutorial/phylo-ordination.qza"; "--o-distance-matrix"; "qiime2-moving-pictures-tutorial/phylo-distance.qza"; "--o-counts-by-node-tree"; "qiime2-moving-pictures-tutorial/phylo-tree.qza"; "--o-counts-by-node"; "qiime2-moving-pictures-tutorial/phylo-table.qza"; "--o-t2t-taxonomy"; "qiime2-moving-pictures-tutorial/phylo-taxonomy.qza"] ]
   [OStream Stdout [LText; LText; LText; LText; LText]].

Definition phylo_rpca_cell8 : cell :=
  Code
   [ SShell ["qiime"; "empress"; "community-plot"; "--i-tree"; "qiime2-moving-pictures-tutorial/phylo-tree.qza"; "--i-feature-table"; "qiime2-moving-pictures-tutorial/phylo-table.qza"; "--i-pcoa"; "qiime2-moving-pictures-tutorial/phylo-ordination.qza"; "--m-sample-metadata-file"; "qiime2-moving-pictures-tutorial/sample-metadata.tsv"; "--m-feature-metadata-file"; "qiime2-moving-pictures-tutorial/phylo-taxonomy.qza"; "--p-filter-missing-features"; "--p-number-of-features"; "50"; "--o-visualization"; "qiime2-moving-pictures-tutorial/phylo-empress.qzv"] ]
   [OStream Stdout [LText]].

Definition phylo_rpca_cell11 : cell :=
  Code
   [ SShell ["qiime"; "diversity"; "beta-group-significance"; "--i-distance-matrix"; "qiime2-moving-pictures-tutorial/phylo-distance.qza"; "--m-metadata-file"; "qiime2-moving-pictures-tutorial/sample-metadata.tsv"; "--m-metadata-column"; "BodySite"; "--p-method"; "permanova"; "--o-visualization"; "qiime2-moving-pictures-tutorial/phylo-BodySite_significance.qzv"] ]
   [OStream Stdout [LText]].

Definition phylo_rpca_cell14 : cell :=
  Code
   [ SShell ["qiime"; "qurro"; "loading-plot"; "--i-ranks"; "qiime2-moving-pictures-tutorial/phylo-ordination.qza"; "--i-table"; "qiime2-moving-pictures-tutorial/phylo-table.qza"; "--m-sample-metadata-file"; "qiime2-moving-pictures-tutorial/sample-metadata.tsv"; "--m-feature-metadata-file"; "qiime2-moving-pictures-tutorial/phylo-taxonomy.qza"; "--o-visualization"; "qiime2-moving-pictures-tutorial/phylo-qurro_plot.qzv"] ]
   [OStream Stdout [LText]].

Definition phylo_rpca : notebook :=
  [ Markdown;
    Markdown;
    phylo_rpca_cell2;
    Markdown;
    phylo_rpca_cell4;
    phylo_rpca_cell5;
    Markdown;
    Markdown;
    phylo_rpca_cell8;
    Markdown;
    Markdown;
    phylo_rpca_cell11;
    Markdown;
    Markdown;
    phylo_rpca_cell14;
    Markdown ].

(** [Phylogenetic-RPCA-moving-pictures.ipynb, second document (the TEMPTED tutorial)] *)

Definition tempted_cell1 : cell :=
  Code
   [ SImport ["os"] None;
     SImport ["warnings"] None;
     SImport ["qiime2"] (Some "q2");
     SExpr (ECall (EAttr (EName "warnings") "filterwarnings")
        [EStr "ignore"]
        [("category", EName "DeprecationWarning")]);
     SExpr (ECall (EAttr (EName "warnings") "simplefilter")
        []
        [("action", EStr "ignore");
         ("category", EName "FutureWarning")]);
     SAssign (EName "table")
      (ECall (EAttr (EAttr (EName "q2") "Artifact") "load")
          [EStr "ECAM-Qiita-10249/table.qza"]
          []);
     SAssign (EName "metadata")
      (ECall (EAttr (EAttr (EName "q2") "Metadata") "load")
          [EStr "ECAM-Qiita-10249/metadata.tsv"]
          []);
     SAssign (EName "tree")
      (ECall (EAttr (EAttr (EName "q2") "Artifact") "load")
          [EStr "ECAM-Qiita-10249/insertion-tree.qza"]
          []);
     SAssign (EName "taxonomy")
      (ECall (EAttr (EAttr (EName "q2") "Artifact") "load")
          [EStr "ECAM-Qiita-10249/taxonomy.qza"]
          []) ]
   [].

Definition tempted_cell3 : cell :=
  Code
   [ SFromImport ["qiime2"; "plugins"; "gemelli"; "actions"] ["tempted_factorize"; "clr_transformation"];
     SAssign (EName "table_transformed")
      (EAttr (ECall (EName "clr_transformation")
          [EName "table"]
          []) "clr_table");
     SAssign (EName "tempted_res")
      (ECall (EName "tempted_factorize")
          [EName "table_transformed";
           EName "metadata";
           EStr "host_subject_id";
           EStr "month"]
          []);
     SExpr (EName "tempted_res") ]
   [OExecuteResult].

Definition tempted_cell5 : cell :=
  Code
   [ SImport ["pandas"] (Some "pd");
     SFromImport ["qiime2"] ["Metadata"];
     SAssign (EName "mf")
      (ECall (EAttr (EName "pd") "read_csv")
          [EStr "ECAM-Qiita-10249/metadata.tsv"]
          [("sep", EStr tab);
           ("index_col", EInt 0)]);
     SAssign (EName "mf")
      (ECall (EAttr (ECall (EAttr (EName "mf") "groupby")
          [EStr "host_subject_id"]
          []) "agg")
          [EDict [(EStr "delivery", EStr "first"); (EStr "antiexposedall", EStr "first")]]
          []);
     SAssign (EAttr (EAttr (EName "mf") "index") "name")
      (EStr "#SampleID");
     SAssign (EAttr (EName "mf") "index")
      (ECall (EAttr (EAttr (EName "mf") "index") "astype")
          [EName "str"]
          []);
     SExpr (ECall (EAttr (EName "mf") "to_csv")
        [EStr "ECAM-Qiita-10249/subject-metadata.tsv"]
        [("sep", EStr tab)]);
     SExpr (ECall (EAttr (EName "mf") "head")
        [EInt 5]
        []) ]
   [OExecuteResult].

Definition tempted_cell7 : cell :=
  Code
   [ SFromImport ["qiime2"; "plugins"; "emperor"; "visualizers"] ["biplot"];
     SAssign (EName "individual_biplot_emperor")
      (ECall (EName "biplot")
          [EAttr (EName "tempted_res") "individual_biplot";
           ECall (EName "Metadata")
              [EName "mf"]
              []]
          [("feature_metadata", ECall (EAttr (EName "taxonomy") "view")
              [EName "Metadata"]
              []);
           ("number_of_features", EInt 15)]);
     SExpr (ECall (EAttr (EAttr (EName "individual_biplot_emperor") "visualization") "save")
        [EStr "ECAM-Qiita-10249/subject_biplot.qzv"]
        []) ]
   [OExecuteResult].

Definition tempted_cell9 : cell :=
  Code
   [ SFromImport ["qiime2"; "plugins"; "qurro"; "actions"] ["loading_plot"];
     SAssign (EName "qurro_plot")
      (ECall (EName "loading_plot")
          [EAttr (EName "tempted_res") "individual_biplot";
           EName "table";
           EName "metadata"]
          [("feature_metadata", ECall (EAttr (EName "taxonomy") "view")
              [EAttr (EName "q2") "Metadata"]
              [])]);
     SExpr (ECall (EAttr (EAttr (EName "qurro_plot") "visualization") "save")
        [EStr "ECAM-Qiita-10249/qurro.qzv"]
        []) ]
   [OStream Stdout [LText; LText]; OExecuteResult].

Definition tempted_cell11 : cell :=
  Code
   [ SImport ["pandas"] (Some "pd");
     SAssign (EName "metadata_one")
      (ECall (EAttr (EName "pd") "read_csv")
          [EStr "ECAM-Qiita-10249/metadata.tsv"]
          [("sep", EStr tab);
           ("index_col", EInt 0)]);
     SAssign (EName "metadata_two")
      (ESubscript (ECall (EAttr (EName "pd") "read_csv")
          [EStr "ECAM-Qiita-10249/sample_plot_data.tsv"]
          [("sep", EStr tab);
           ("index_col", EInt 0)]) (EList [EStr "Current_Log_Ratio"]));
     SAssign (EName "log_ratio_metdata")
      (ECall (EAttr (EName "pd") "concat")
          [EList [EName "metadata_two"; EName "metadata_one"]]
          [("axis", EInt 1)]);
     SAssign (EName "log_ratio_metdata")
      (ECall (EAttr (EName "log_ratio_metdata") "dropna")
          []
          [("subset", EList [EStr "Current_Log_Ratio"])]);
     SAssign (EAttr (EName "log_ratio_metdata") "index")
      (ECall (EAttr (EAttr (EName "log_ratio_metdata") "index") "astype")
          [EName "str"]
          []);
     SAssign (EName "log_ratio_metdata")
      (ESubscript (EName "log_ratio_metdata") (EList [EStr "month"; EStr "host_subject_id"; EStr "delivery"; EStr "Current_Log_Ratio"]));
     SAssign (EAttr (EAttr (EName "log_ratio_metdata") "index") "name")
      (EStr "#SampleID");
     SExpr (ECall (EAttr (EName "log_ratio_metdata") "to_csv")
        [EStr "ECAM-Qiita-10249/merged_sample_plot_data.tsv"]
        [("sep", EStr tab)]);
     SExpr (ECall (EAttr (EName "log_ratio_metdata") "head")
        [EInt 2]
        []) ]
   [OExecuteResult].

Definition tempted_cell13 : cell :=
  Code
   [ SFromImport ["qiime2"; "plugins"; "longitudinal"; "actions"] ["volatility"; "linear_mixed_effects"];
     SAssign (EName "temporal_plot")
      (ECall (EName "volatility")
          [ECall (EAttr (EName "q2") "Metadata")
              [EName "log_ratio_metdata"]
              [];
           EStr "month"]
          [("individual_id_column", EStr "host_subject_id");
           ("default_group_column", EStr "delivery");
           ("default_metric", EStr "Current_Log_Ratio")]);
     SExpr (ECall (EAttr (EAttr (EName "temporal_plot") "visualization") "save")
        [EStr "ECAM-Qiita-10249/log_ratio_plot.qzv"]
        []) ]
   [OExecuteResult].

Definition tempted_cell15 : cell :=
  Code
   [ SAssign (EName "lme_plot")
      (ECall (EName "linear_mixed_effects")
          [ECall (EAttr (EName "q2") "Metadata")
              [EName "log_ratio_metdata"]
              [];
           EStr "month"]
          [("individual_id_column", EStr "host_subject_id");
           ("group_columns", EStr "delivery");
           ("metric", EStr "Current_Log_Ratio")]);
     SExpr (ECall (EAttr (EAttr (EName "lme_plot") "visualization") "save")
        [EStr "ECAM-Qiita-10249/lme_log_ratio.qzv"]
        []) ]
   [OStream Stderr [LWarning "/Users/cameronmartino/miniconda2/envs/qiime2-2019.7/lib/python3.6/site-packages/q2_longitudinal/_longitudinal.py" 291 "UserWarning"; LEcho]; OExecuteResult].

Definition tempted : notebook :=
  [ Markdown;
    tempted_cell1;
    Markdown;
    tempted_cell3;
    Markdown;
    tempted_cell5;
    Markdown;
    tempted_cell7;
    Markdown;
    tempted_cell9;
    Markdown;
    tempted_cell11;
    Markdown;
    tempted_cell13;
    Markdown;
    tempted_cell15;
    Markdown ].

(** The three source files.  The third file holds two notebook documents, one
    after the other. *)
Definition ibd_file : list notebook := [ibd].
Definition phylo_ibd_file : list notebook := [phylo_ibd].
Definition phylo_rpca_file : list notebook := [phylo_rpca; tempted].

Definition tutorials : list (list notebook) :=
  [ibd_file; phylo_ibd_file; phylo_rpca_file].

(** All notebook documents of the repository. *)
Definition notebooks : list notebook := concat tutorials.

(** ** Name resolution

    The kernel's global namespace is a dictionary from names to objects.  The
    analysis keeps, for each name, whether it was bound by an import (and to
    which qualified name), to a string constant, or to some other value. *)

Inductive binding : Type :=
  | BImport (q : list string)
  | BStr (s : string)
  | BValue.

Abbreviation globals := (gmap string binding).

(** [import a.b.c] binds the top-level package name; [import a.b.c as x]
    binds [x] to the module itself. *)
Definition bind_import (m : list string) (asname : option string)
    (g : globals) : globals :=
  match asname, m with
  | Some a, _ => <[a := BImport m]> g
  | None, top :: _ => <[top := BImport [top]]> g
  | None, [] => g
  end.

(** [from m import x, y] binds each name to the attribute of that name. *)
Definition bind_from (m : list string) (names : list string)
    (g : globals) : globals :=
  foldl (fun g x => <[x := BImport (m ++ [x])]> g) g names.

Definition value_binding (v : expr) : binding :=
  match v with
  | EStr s => BStr s
  | _ => BValue
  end.

(** Assignment: a name target is rebound; a tuple target rebinds each of its
    names to an unpacked value; attribute and subscript targets store into an
    object and leave the namespace as it is. *)
Fixpoint bind_target (t : expr) (v : binding) (g : globals) : globals :=
  match t with
  | EName x => <[x := v]> g
  | ETuple ts => foldl (fun g t => bind_target t BValue g) g ts
  | EList ts => foldl (fun g t => bind_target t BValue g) g ts
  | _ => g
  end.

(** [a.b.c] as its root name and attribute path. *)
Fixpoint attr_chain (e : expr) : option (string * list string) :=
  match e with
  | EName x => Some (x, [])
  | EAttr e' a =>
      match attr_chain e' with
      | Some (r, p) => Some (r, p ++ [a])
      | None => None
      end
  | _ => None
  end.

(** The qualified name an expression denotes, when its root was imported. *)
Definition resolve (g : globals) (e : expr) : option (list string) :=
  match attr_chain e with
  | Some (r, p) =>
      match g !! r with
      | Some (BImport q) => Some (q ++ p)
      | _ => None
      end
  | None => None
  end.

(** ** Calls, in evaluation order *)

Record call : Type := Call {
  callee : expr;
  args : list expr;
  kwargs : list (string * expr)
}.

(** Python evaluates the callee, then the positional and the keyword
    arguments left to right, then performs the call. *)
Fixpoint calls (e : expr) : list call :=
  match e with
  | ECall f a k =>
      calls f ++ flat_map calls a ++ flat_map (fun '(_, v) => calls v) k
        ++ [Call f a k]
  | EAttr e' _ => calls e'
  | ESubscript e' i => calls e' ++ calls i
  | EList es | ETuple es => flat_map calls es
  | EDict kvs => flat_map (fun '(k, v) => calls k ++ calls v) kvs
  | EAwait e' => calls e'
  | EName _ | EStr _ | EInt _ | EBool _ | ELambda _ _ => []
  end.

Definition kwarg (k : string) (c : call) : option expr :=
  snd <$> find (fun '(k', _) => String.eqb k k') (kwargs c).

(** ** Paths *)

Fixpoint ends_with_sep (s : string) : bool :=
  match s with
  | EmptyString => false
  | String c EmptyString => Ascii.eqb c "/"%char
  | String _ s' => ends_with_sep s'
  end.

(** One step of [posixpath.join]. *)
Definition path_join (path b : string) : string :=
  if String.prefix "/" b then b
  else if String.eqb path EmptyString || ends_with_sep path then path +:+ b
  else path +:+ "/" +:+ b.

Fixpoint all_some {A} (l : list (option A)) : option (list A) :=
  match l with
  | [] => Some []
  | Some x :: l' =>
      match all_some l' with
      | Some xs => Some (x :: xs)
      | None => None
      end
  | None :: _ => None
  end.

(** The string an expression evaluates to, where the analysis can tell: a
    literal, a name bound to a literal, or [os.path.join] of such. *)
Fixpoint eval_str (g : globals) (e : expr) : option string :=
  match e with
  | EStr s => Some s
  | EName x =>
      match g !! x with
      | Some (BStr s) => Some s
      | _ => None
      end
  | ECall f (a :: p) [] =>
      if bool_decide (resolve g f = Some ["os"; "path"; "join"]) then
        match eval_str g a, all_some (map (eval_str g) p) with
        | Some a', Some p' => Some (foldl path_join a' p')
        | _, _ => None
        end
      else None
  | _ => None
  end.

Definition arg_path (g : globals) (c : call) : option string :=
  match args c with
  | a :: _ => eval_str g a
  | [] => None
  end.

Definition kwarg_str (g : globals) (k : string) (c : call) : option string :=
  match kwarg k c with
  | Some e => eval_str g e
  | None => None
  end.

(** ** Effects

    What a call or a shell escape does, as far as the notebook's own text
    determines it.  Plugin actions are opaque: an action invoked through the
    Python API works on in-memory artifacts, one invoked through the command
    line reads and writes the files named by its options. *)

Inductive channel : Type := Api | Cli.

Inductive effect : Type :=
  | ArtifactLoad (path : option string)
  | MetadataLoad (path : option string)
  | Action (via : channel) (plugin action : string) (reads writes : list string)
  | ShellOther (argv : list string)
  | WarningFilter (fn : string) (action : option string) (category : option string)
  | ReadTable (path : option string) (sep : option string)
  | WriteTable (path : option string) (sep : option string)
  | Save (path : option string)
  | TableOp (op : string)
  | PathJoin
  | Unclassified.

(** The sub-modules through which [qiime2.plugins.<plugin>] exposes the
    actions of a plugin. *)
Definition plugin_submodules : list string :=
  ["actions"; "methods"; "visualizers"; "pipelines"].

(** Methods of tables and of objects viewed as tables (DataFrame, Index,
    GroupBy, Metadata, Artifact.view) that work in memory. *)
Definition table_methods : list string :=
  ["view"; "to_dataframe"; "groupby"; "agg"; "dropna"; "astype"; "head";
   "rename"].

Definition mem (x : string) (l : list string) : bool :=
  existsb (String.eqb x) l.

Definition name_of (e : expr) : option string :=
  match e with
  | EName x => Some x
  | _ => None
  end.

Definition classify_qualified (g : globals) (c : call) (q : list string) : effect :=
  match q with
  | [pkg; cls; m] =>
      if bool_decide (q = ["qiime2"; "Artifact"; "load"]) then
        ArtifactLoad (arg_path g c)
      else if bool_decide (q = ["qiime2"; "Metadata"; "load"]) then
        MetadataLoad (arg_path g c)
      else if bool_decide (q = ["os"; "path"; "join"]) then PathJoin
      else Unclassified
  | [pkg; f] =>
      if bool_decide (q = ["qiime2"; "Metadata"]) then TableOp "Metadata"
      else if bool_decide (q = ["pandas"; "read_csv"]) then
        ReadTable (arg_path g c) (kwarg_str g "sep" c)
      else if bool_decide (q = ["pandas"; "concat"]) then TableOp "concat"
      else if String.eqb pkg "warnings"
              && mem f ["filterwarnings"; "simplefilter"] then
        WarningFilter f
          (match kwarg "action" c, args c with
           | Some e, _ => eval_str g e
           | None, a :: _ => eval_str g a
           | None, [] => None
           end)
          (match kwarg "category" c with
           | Some e => name_of e
           | None => None
           end)
      else Unclassified
  | [pkg; sub; plugin; kind; action] =>
      if String.eqb pkg "qiime2" && String.eqb sub "plugins"
         && mem kind plugin_submodules
      then Action Api plugin action [] []
      else Unclassified
  | _ => Unclassified
  end.

Definition classify_method (g : globals) (c : call) : effect :=
  match callee c with
  | EAttr _ m =>
      if String.eqb m "save" then Save (arg_path g c)
      else if String.eqb m "to_csv" then
        WriteTable (arg_path g c) (kwarg_str g "sep" c)
      else if mem m table_methods then TableOp m
      else Unclassified
  | _ => Unclassified
  end.

Definition classify (g : globals) (c : call) : effect :=
  match resolve g (callee c) with
  | Some q => classify_qualified g c q
  | None => classify_method g c
  end.

(** *** Command lines

    [qiime <plugin> <action> options...]; the command groups [info], [tools]
    and [dev] belong to the framework itself and are not plugins.  Options
    [--i-*] name input artifacts, [--m-*-file] metadata files, [--o-*]
    outputs; [--p-*] and [--m-*-column] are parameters. *)

Definition framework_commands : list string := ["info"; "tools"; "dev"].

Definition is_option (w : string) : bool := String.prefix "--" w.

Fixpoint is_suffix_aux (suf s : string) (n : nat) : bool :=
  match n with
  | O => String.eqb suf s
  | S n' =>
      String.eqb suf s
      || match s with
         | EmptyString => false
         | String _ s' => is_suffix_aux suf s' n'
         end
  end.

Definition is_suffix (suf s : string) : bool :=
  is_suffix_aux suf s (String.length s).

(** Pair each option with the word after it, when that word is a value. *)
Fixpoint parse_options (ws : list string) : list (string * option string) :=
  match ws with
  | [] => []
  | w :: rest =>
      match rest with
      | v :: rest' =>
          if is_option w && negb (is_option v)
          then (w, Some v) :: parse_options rest'
          else (w, None) :: parse_options rest
      | [] => [(w, None)]
      end
  end.

Definition option_values (p : string -> bool)
    (opts : list (string * option string)) : list string :=
  omap (fun '(o, v) => if p o then v else None) opts.

Definition reads_option (o : string) : bool :=
  String.prefix "--i-" o || (String.prefix "--m-" o && is_suffix "-file" o).

Definition writes_option (o : string) : bool := String.prefix "--o-" o.

(** A command line that invokes a plugin action: the plugin, the action and
    the options. *)
Definition command (argv : list string)
    : option (string * string * list (string * option string)) :=
  match argv with
  | prog :: plugin :: action :: ws =>
      if String.eqb prog "qiime" && negb (mem plugin framework_commands)
         && negb (is_option plugin) && negb (is_option action)
      then Some (plugin, action, parse_options ws)
      else None
  | _ => None
  end.

Definition shell_effect (argv : list string) : effect :=
  match command argv with
  | Some (plugin, action, opts) =>
      Action Cli plugin action
        (option_values reads_option opts) (option_values writes_option opts)
  | None => ShellOther argv
  end.

(** ** Execution

    A statement yields the effects of its calls and the namespace after it.
    Imports and assignments of plain values only rebind names.  The compound
    statements are outside the fragment this semantics covers. *)

Definition effects (g : globals) (e : expr) : list effect :=
  map (classify g) (calls e).

Definition exec_stmt (g : globals) (s : stmt) : option (list effect * globals) :=
  match s with
  | SImport m a => Some ([], bind_import m a g)
  | SFromImport m names => Some ([], bind_from m names g)
  | SAssign t v =>
      Some (effects g v ++ effects g t, bind_target t (value_binding v) g)
  | SExpr e => Some (effects g e, g)
  | SShell argv => Some ([shell_effect argv], g)
  | SDef _ _ _ _ | SClass _ _ | SFor _ _ _ _ | SWhile _ _ | SIf _ _ _
  | STry _ _ _ | SWith _ _ _ | SRaise _ | SReturn _ => None
  end.

Fixpoint exec_stmts (g : globals) (ss : list stmt)
    : option (list effect * globals) :=
  match ss with
  | [] => Some ([], g)
  | s :: ss' =>
      match exec_stmt g s with
      | Some (es, g') =>
          match exec_stmts g' ss' with
          | Some (es', g'') => Some (es ++ es', g'')
          | None => None
          end
      | None => None
      end
  end.

Definition source_of (c : cell) : list stmt :=
  match c with
  | Markdown => []
  | Code src _ => src
  end.

Definition outputs_of (c : cell) : list output :=
  match c with
  | Markdown => []
  | Code _ outs => outs
  end.

Definition exec_cell (g : globals) (c : cell) : option (list effect * globals) :=
  exec_stmts g (source_of c).

(** Cells run one after the other; the result keeps the effects of each cell
    apart, in cell order. *)
Fixpoint exec_cells (g : globals) (cs : list cell)
    : option (list (list effect) * globals) :=
  match cs with
  | [] => Some ([], g)
  | c :: cs' =>
      match exec_cell g c with
      | Some (es, g') =>
          match exec_cells g' cs' with
          | Some (ess, g'') => Some (es :: ess, g'')
          | None => None
          end
      | None => None
      end
  end.

(** A notebook starts in a fresh kernel. *)
Definition run (nb : notebook) : option (list (list effect)) :=
  fst <$> exec_cells ∅ nb.

Definition trace (nb : notebook) : list effect :=
  match run nb with
  | Some ess => concat ess
  | None => []
  end.

#[global] Instance channel_eq_dec : EqDecision channel.
Proof. solve_decision. Defined.

#[global] Instance effect_eq_dec : EqDecision effect.
Proof. solve_decision. Defined.

(** ** Kinds of effects

    The three kinds the specification names are loading a stored artifact,
    calling a plugin action and manipulating tables; the others are what the
    cells do besides. *)

Inductive kind : Type :=
  | KLoad        (* load a pre-existing file through the plugin framework *)
  | KAction      (* call a plugin action, through the API or the command line *)
  | KTable       (* read or reshape a table with pandas or a Metadata view *)
  | KWrite       (* write a result file *)
  | KFilter      (* configure the interpreter's warning filters *)
  | KShell       (* run a shell command that is not a plugin action *)
  | KPath        (* compute a path string *)
  | KUnknown.

#[global] Instance kind_eq_dec : EqDecision kind.
Proof. solve_decision. Defined.

Definition kind_of (e : effect) : kind :=
  match e with
  | ArtifactLoad _ | MetadataLoad _ => KLoad
  | Action _ _ _ _ _ => KAction
  | ReadTable _ _ | TableOp _ => KTable
  | WriteTable _ _ | Save _ => KWrite
  | WarningFilter _ _ _ => KFilter
  | ShellOther _ => KShell
  | PathJoin => KPath
  | Unclassified => KUnknown
  end.

Definition spec_kinds : list kind := [KLoad; KAction; KTable].

Definition other_kinds : list kind := [KWrite; KFilter; KShell; KPath].

(** ** Straight-line code *)

Fixpoint has_lambda (e : expr) : bool :=
  match e with
  | ELambda _ _ => true
  | EAttr e' _ | EAwait e' => has_lambda e'
  | ECall f a k =>
      has_lambda f || existsb has_lambda a
      || existsb (fun '(_, v) => has_lambda v) k
  | ESubscript e' i => has_lambda e' || has_lambda i
  | EList es | ETuple es => existsb has_lambda es
  | EDict kvs => existsb (fun '(k, v) => has_lambda k || has_lambda v) kvs
  | EName _ | EStr _ | EInt _ | EBool _ => false
  end.

(** A statement that defines nothing and branches nowhere: an import, an
    assignment, an expression or a shell escape, without a lambda inside. *)
Definition straight_line (s : stmt) : bool :=
  match s with
  | SImport _ _ | SFromImport _ _ | SShell _ => true
  | SAssign t v => negb (has_lambda t) && negb (has_lambda v)
  | SExpr e => negb (has_lambda e)
  | SDef _ _ _ _ | SClass _ _ | SFor _ _ _ _ | SWhile _ _ | SIf _ _ _
  | STry _ _ _ | SWith _ _ _ | SRaise _ | SReturn _ => false
  end.

Definition stmts_of (nb : notebook) : list stmt := nb ≫= source_of.

Definition gemelli_actions : list string :=
  ["qiime2"; "plugins"; "gemelli"; "actions"].

(** Names a notebook imports from the gemelli plugin, and the gemelli actions
    it calls through the Python API. *)
Definition gemelli_imports (nb : notebook) : list string :=
  stmts_of nb ≫= fun s =>
    match s with
    | SFromImport m names =>
        if bool_decide (m = gemelli_actions) then names else []
    | _ => []
    end.

Definition gemelli_calls (via : channel) (nb : notebook) : list string :=
  trace nb ≫= fun e =>
    match e with
    | Action via' plugin a _ _ =>
        if bool_decide (via' = via) && String.eqb plugin "gemelli" then [a]
        else []
    | _ => []
    end.

(** ** Factorization methods *)

Inductive method : Type := RPCA | CTF | PhyloCTF | PhyloRPCA | TEMPTED.

#[global] Instance method_eq_dec : EqDecision method.
Proof. solve_decision. Defined.

(** The command line spells the underscores of an action name as hyphens. *)
Fixpoint action_id (s : string) : string :=
  match s with
  | EmptyString => EmptyString
  | String c s' =>
      String (if Ascii.eqb c "-"%char then "_"%char else c) (action_id s')
  end.

(** The factorization behind a gemelli action; [clr_transformation] is a
    transform of the table, not a factorization. *)
Definition method_of (a : string) : option method :=
  let a := action_id a in
  if String.eqb a "rpca" then Some RPCA
  else if String.eqb a "ctf" then Some CTF
  else if String.eqb a "phylogenetic_ctf_with_taxonomy" then Some PhyloCTF
  else if String.eqb a "phylogenetic_rpca_with_taxonomy" then Some PhyloRPCA
  else if String.eqb a "tempted_factorize" then Some TEMPTED
  else None.

(** The first occurrence of each element, in order. *)
Fixpoint distinct {A} `{EqDecision A} (l : list A) : list A :=
  match l with
  | [] => []
  | x :: l' => x :: filter (fun y => y ≠ x) (distinct l')
  end.

Definition methods_run (via : channel) (nbs : list notebook) : list method :=
  distinct (nbs ≫= fun nb => omap method_of (gemelli_calls via nb)).

Definition spec_methods : list method := [CTF; PhyloCTF; PhyloRPCA; TEMPTED].

(** ** Interfaces to the environment

    Calls into imported libraries (pandas, the plugin actions behind the
    Python API, the warnings module) work on objects in memory; the file
    system and the shell are reached by the effects below. *)

Inductive interface : Type :=
  | IArtifactFile    (* the framework's artifact and visualization archives *)
  | ICommandLine     (* a plugin action run as [qiime <plugin> <action>] *)
  | ITsvFile         (* a tab-separated metadata file *)
  | IOtherShell      (* any other shell command *)
  | IOtherFile       (* a file in any other format *)
  | IUnknown.

#[global] Instance interface_eq_dec : EqDecision interface.
Proof. solve_decision. Defined.

Definition is_tsv (p : option string) : bool :=
  match p with
  | Some p => is_suffix ".tsv" p
  | None => false
  end.

Definition interface_of (e : effect) : option interface :=
  match e with
  | ArtifactLoad _ | Save _ => Some IArtifactFile
  | MetadataLoad p => Some (if is_tsv p then ITsvFile else IArtifactFile)
  | ReadTable _ sep | WriteTable _ sep =>
      Some (if bool_decide (sep = Some tab) then ITsvFile else IOtherFile)
  | Action Cli _ _ _ _ => Some ICommandLine
  | ShellOther _ => Some IOtherShell
  | Action Api _ _ _ _ | WarningFilter _ _ _ | TableOp _ | PathJoin => None
  | Unclassified => Some IUnknown
  end.

Definition spec_interfaces : list interface :=
  [IArtifactFile; ICommandLine; ITsvFile].

(** ** Errors and warnings *)

(** Statements that catch, raise or scope errors and warnings. *)
Fixpoint handles_errors (s : stmt) : bool :=
  match s with
  | STry _ _ _ | SRaise _ | SWith _ _ _ => true
  | SDef _ _ _ b | SClass _ b | SFor _ _ _ b | SWhile _ b =>
      existsb handles_errors b
  | SIf _ b1 b2 => existsb handles_errors b1 || existsb handles_errors b2
  | SImport _ _ | SFromImport _ _ | SAssign _ _ | SExpr _ | SShell _
  | SReturn _ => false
  end.

Definition filters_warnings (e : effect) : bool :=
  match e with
  | WarningFilter _ _ _ => true
  | _ => false
  end.

(** The warning records among the outputs of a notebook: file, line and
    category. *)
Definition recorded_warnings (nb : notebook) : list (string * nat * string) :=
  nb ≫= fun c => outputs_of c ≫= fun o =>
    match o with
    | OStream _ lines =>
        lines ≫= fun l =>
          match l with
          | LWarning f n cat => [(f, n, cat)]
          | _ => []
          end
    | OExecuteResult => []
    end.

Fixpoint is_infix (pat s : string) : bool :=
  String.prefix pat s
  || match s with
     | EmptyString => false
     | String _ s' => is_infix pat s'
     end.

(** A warning raised from an installed package names a file under the
    environment's [site-packages]; one raised by a cell would name the cell's
    own [<ipython-input-...>] pseudo-file. *)
Definition external_file (f : string) : bool :=
  is_infix "/site-packages/" f && negb (String.prefix "<ipython-input" f).

(** ** Data flow between cells

    Statements in execution order, each with the index of its cell and the
    namespace it runs in. *)

Definition next_globals (g : globals) (s : stmt) : globals :=
  match exec_stmt g s with
  | Some (_, g') => g'
  | None => g
  end.

Fixpoint annotate (g : globals) (ss : list (nat * stmt))
    : list (nat * stmt * globals) :=
  match ss with
  | [] => []
  | (i, s) :: ss' => (i, s, g) :: annotate (next_globals g s) ss'
  end.

Definition statements (nb : notebook) : list (nat * stmt) :=
  concat (imap (fun i c => (fun s => (i, s)) <$> source_of c) nb).

Definition program (nb : notebook) : list (nat * stmt * globals) :=
  annotate ∅ (statements nb).

Fixpoint target_names (t : expr) : list string :=
  match t with
  | EName x => [x]
  | ETuple ts | EList ts => flat_map target_names ts
  | _ => []
  end.

(** The names a statement binds. *)
Definition defines (s : stmt) : list string :=
  match s with
  | SAssign t _ => target_names t
  | SImport m (Some a) => [a]
  | SImport m None => take 1 m
  | SFromImport _ names => names
  | SDef _ f _ _ | SClass f _ => [f]
  | _ => []
  end.

(** The attribute chains rooted at a name that occur in an expression. *)
Fixpoint mentions (e : expr) : list (string * list string) :=
  match e with
  | EName x => [(x, [])]
  | EAttr e' a =>
      match attr_chain e' with
      | Some (r, p) => [(r, p ++ [a])]
      | None => mentions e'
      end
  | ECall f a k =>
      mentions f ++ flat_map mentions a
        ++ flat_map (fun '(_, v) => mentions v) k
  | ESubscript e' i => mentions e' ++ mentions i
  | EList es | ETuple es => flat_map mentions es
  | EDict kvs => flat_map (fun '(k, v) => mentions k ++ mentions v) kvs
  | ELambda _ b => mentions b
  | EAwait e' => mentions e'
  | EStr _ | EInt _ | EBool _ => []
  end.

(** What is passed to a call: the chains in its arguments. *)
Definition passed (c : call) : list (string * list string) :=
  flat_map mentions (args c) ++ flat_map (fun '(_, v) => mentions v) (kwargs c).

Definition stmt_calls (s : stmt) : list call :=
  match s with
  | SAssign t v => calls v ++ calls t
  | SExpr e => calls e
  | _ => []
  end.

(** The names an assignment target reads: none when it is a name or a tuple
    of names, the object stored into otherwise. *)
Fixpoint target_uses (t : expr) : list string :=
  match t with
  | EName _ => []
  | ETuple ts | EList ts => flat_map target_uses ts
  | _ => (mentions t).*1
  end.

(** The names a straight-line statement reads. *)
Definition uses (s : stmt) : list string :=
  match s with
  | SAssign t v => (mentions v).*1 ++ target_uses t
  | SExpr e => (mentions e).*1
  | _ => []
  end.

(** The call whose result a statement assigns: [x = f(...)], or
    [x = f(...).attr]. *)
Definition origin (g : globals) (s : stmt) : option (list string) :=
  match s with
  | SAssign _ (ECall f _ _) | SAssign _ (EAttr (ECall f _ _) _) => resolve g f
  | _ => None
  end.

(** String-valued keyword arguments of a call. *)
Definition str_kwargs (c : call) : list (string * string) :=
  omap (fun '(k, v) => match v with EStr s => Some (k, s) | _ => None end)
    (kwargs c).

(** A use of a variable by a call, joined with the definition that reaches
    it: the statement of cell [producer_cell] bound [var] (to the result of
    [producer], when it is a call), and the call to [consumer] in cell
    [consumer_cell] is passed [var.attrs]. *)
Record link : Type := Link {
  producer_cell : nat;
  producer : option (list string);
  var : string;
  attrs : list string;
  consumer_cell : nat;
  consumer : list string;
  params : list (string * string)
}.

#[global] Instance link_eq_dec : EqDecision link.
Proof. solve_decision. Defined.

(** The latest earlier statement that binds [x]; [before] is most recent
    first. *)
Definition reaching (x : string) (before : list (nat * stmt * globals))
    : option (nat * stmt * globals) :=
  find (fun '(_, s, _) => mem x (defines s)) before.

Definition links_of (before : list (nat * stmt * globals))
    (j : nat) (s : stmt) (g : globals) : list link :=
  stmt_calls s ≫= fun c =>
    match resolve g (callee c) with
    | Some q =>
        passed c ≫= fun '(x, p) =>
          match reaching x before with
          | Some (i, d, gd) => [Link i (origin gd d) x p j q (str_kwargs c)]
          | None => []
          end
    | None => []
    end.

Fixpoint links_from (before rest : list (nat * stmt * globals)) : list link :=
  match rest with
  | [] => []
  | (j, s, g) :: rest' =>
      links_of before j s g ++ links_from ((j, s, g) :: before) rest'
  end.

Definition links (nb : notebook) : list link := links_from [] (program nb).

Definition plugin_action (plugin kind action : string) : list string :=
  ["qiime2"; "plugins"; plugin; kind; action].

(** The columns a cell selects from Qurro's exported [sample_plot_data.tsv]:
    [pd.read_csv('.../sample_plot_data.tsv', ...)[[columns]]]. *)
Definition selected_export (g : globals) (s : stmt) : list string :=
  match s with
  | SAssign _ (ESubscript (ECall f (EStr p :: _) _) (EList cols)) =>
      if bool_decide (resolve g f = Some ["pandas"; "read_csv"])
         && is_suffix "/sample_plot_data.tsv" p
      then omap (fun e => match e with EStr c => Some c | _ => None end) cols
      else []
  | _ => []
  end.

Definition exports (nb : notebook) : list (nat * string) :=
  program nb ≫= fun '(i, s, g) => (fun c => (i, c)) <$> selected_export g s.

(** The selections from Qurro's export that the value of [x] is computed
    from: the assignment that reaches [x], and through the names its
    right-hand side reads, the assignments that reach those.  [before] holds
    the earlier statements, most recent first. *)
Fixpoint export_sources (x : string) (before : list (nat * stmt * globals))
    : list (nat * string) :=
  match before with
  | [] => []
  | (i, s, g) :: before' =>
      if mem x (defines s) then
        ((fun c => (i, c)) <$> selected_export g s)
          ++ flat_map (fun y => export_sources y before') (uses s)
      else export_sources x before'
  end.

(** The calls that are passed a variable computed from a selection of the
    export: the cell of the call, the function called, the variable, and the
    cell and column of the selection. *)
Definition export_flows_of (before : list (nat * stmt * globals))
    (j : nat) (s : stmt) (g : globals)
    : list (nat * list string * string * nat * string) :=
  stmt_calls s ≫= fun c =>
    match resolve g (callee c) with
    | Some q =>
        passed c ≫= fun '(x, _) =>
          (fun '(i, col) => (j, q, x, i, col)) <$> export_sources x before
    | None => []
    end.

Fixpoint export_flows_from (before rest : list (nat * stmt * globals))
    : list (nat * list string * string * nat * string) :=
  match rest with
  | [] => []
  | (j, s, g) :: rest' =>
      export_flows_of before j s g
        ++ export_flows_from ((j, s, g) :: before) rest'
  end.

Definition export_flows (nb : notebook)
    : list (nat * list string * string * nat * string) :=
  export_flows_from [] (program nb).

Definition biplot_outputs : list string := ["subject_biplot"; "individual_biplot"].

Definition ordination_plots : list (list string) :=
  [plugin_action "emperor" "actions" "biplot";
   plugin_action "emperor" "visualizers" "biplot";
   plugin_action "empress" "actions" "community_plot"].

(** The chain of one tutorial: cell [i] binds the result of a gemelli
    factorization; its subject (or individual) biplot is passed to an
    ordination plot in cell [j] and to Qurro's loading plot in cell [k]; cell
    [m] selects the log-ratio column [col] of Qurro's export, and cell [n]
    passes a table [t] computed from that selection to the linear
    mixed-effects action, with [col] as its metric. *)
Definition chained (nb : notebook) : Prop :=
  ∃ (a b r t col : string) (plot : list string) (i j k m n : nat)
    (pj pk pn : list (string * string)) (d : option (list string)),
    is_Some (method_of a) ∧ b ∈ biplot_outputs ∧ plot ∈ ordination_plots ∧
    Link i (Some (plugin_action "gemelli" "actions" a)) r [b] j plot pj
      ∈ links nb ∧
    Link i (Some (plugin_action "gemelli" "actions" a)) r [b] k
      (plugin_action "qurro" "actions" "loading_plot") pk ∈ links nb ∧
    (m, col) ∈ exports nb ∧
    Link m d t [] n
      (plugin_action "longitudinal" "actions" "linear_mixed_effects") pn
      ∈ links nb ∧
    (n, plugin_action "longitudinal" "actions" "linear_mixed_effects", t, m, col)
      ∈ export_flows nb ∧
    ("metric", col) ∈ pn ∧
    (i < j)%nat ∧ (i < k)%nat ∧ (k < m)%nat ∧ (m < n)%nat.

(** The plugin actions a notebook invokes on the command line, each with the
    index of its cell. *)
Definition commands (nb : notebook)
    : list (nat * (string * string * list (string * option string))) :=
  omap (fun '(i, s) =>
          match s with
          | SShell argv => (fun c => (i, c)) <$> command argv
          | _ => None
          end) (statements nb).




(** ** Concurrency *)

Definition concurrency_modules : list string :=
  ["threading"; "_thread"; "multiprocessing"; "concurrent"; "asyncio";
   "subprocess"; "sched"; "signal"; "queue"].

Fixpoint has_await (e : expr) : bool :=
  match e with
  | EAwait _ => true
  | EAttr e' _ => has_await e'
  | ECall f a k =>
      has_await f || existsb has_await a
      || existsb (fun '(_, v) => has_await v) k
  | ESubscript e' i => has_await e' || has_await i
  | EList es | ETuple es => existsb has_await es
  | EDict kvs => existsb (fun '(k, v) => has_await k || has_await v) kvs
  | ELambda _ b => has_await b
  | EName _ | EStr _ | EInt _ | EBool _ => false
  end.

(** A shell word that puts a job in the background: [&] on its own or at the
    end of a word, but not the sequencing [&&]. *)
Definition background_word (w : string) : bool :=
  is_suffix "&" w && negb (is_suffix "&&" w).

(** Statements that start something running beside the cell: an import of a
    threading, process or event-loop module, an [async] form or an [await], a
    shell job sent to the background.  A shell escape without [&] runs in the
    foreground: the kernel waits for the command to exit before the cell, and
    the next cell, go on. *)
Fixpoint concurrent (s : stmt) : bool :=
  match s with
  | SImport m _ | SFromImport m _ => existsb (fun x => mem x concurrency_modules) (take 1 m)
  | SShell argv => existsb background_word argv
  | SAssign t v => has_await t || has_await v
  | SExpr e | SRaise e | SReturn e => has_await e
  | SDef a _ _ b => a || existsb concurrent b
  | SFor a t it b => a || has_await t || has_await it || existsb concurrent b
  | SWith a c b => a || has_await c || existsb concurrent b
  | SClass _ b => existsb concurrent b
  | SWhile c b => has_await c || existsb concurrent b
  | SIf c b1 b2 => has_await c || existsb concurrent b1 || existsb concurrent b2
  | STry b h f => existsb concurrent b || existsb concurrent h || existsb concurrent f
  end.

(** Statements that start a process: the shell escapes.  (A call of
    [os.system] or of the [subprocess] module would be an unclassified call
    or an import of a concurrency module.) *)
Fixpoint starts_process (s : stmt) : bool :=
  match s with
  | SShell _ => true
  | SDef _ _ _ b | SClass _ b | SFor _ _ _ b | SWhile _ b | SWith _ _ b =>
      existsb starts_process b
  | SIf _ b1 b2 => existsb starts_process b1 || existsb starts_process b2
  | STry b h f =>
      existsb starts_process b || existsb starts_process h
      || existsb starts_process f
  | SImport _ _ | SFromImport _ _ | SAssign _ _ | SExpr _ | SRaise _
  | SReturn _ => false
  end.

(** ** Files read and written *)

Definition reads (e : effect) : list string :=
  match e with
  | ArtifactLoad (Some p) | MetadataLoad (Some p) | ReadTable (Some p) _ => [p]
  | Action _ _ _ r _ => r
  | _ => []
  end.

Definition writes (e : effect) : list string :=
  match e with
  | Save (Some p) | WriteTable (Some p) _ => [p]
  | Action _ _ _ _ w => w
  | _ => []
  end.

(** Every file effect names its path. *)
Definition path_known (e : effect) : bool :=
  match e with
  | ArtifactLoad None | MetadataLoad None | ReadTable None _
  | WriteTable None _ | Save None => false
  | _ => true
  end.

(** The paths a trace reads before it has written them: the files that must
    exist before the notebook runs. *)
Fixpoint inputs_from (written : list string) (t : list effect) : list string :=
  match t with
  | [] => []
  | e :: t' =>
      filter (fun p => p ∉ written) (reads e)
        ++ inputs_from (writes e ++ written) t'
  end.

Definition inputs (nb : notebook) : list string := inputs_from [] (trace nb).

Definition all_reads (nb : notebook) : list string := trace nb ≫= reads.

Definition all_writes (nb : notebook) : list string := trace nb ≫= writes.

(** ** Tables

    The pandas operations of the cells that aggregate the sample metadata by
    subject and merge Qurro's log-ratios into it.  A table has a named index
    of row labels and named columns; a cell holds a scalar or is missing
    ([None], pandas' NaN).  Scalars are left abstract: the cells only compare
    them, order them and turn them into strings. *)

Section Frames.
Context {V : Type} `{!EqDecision V}.
(** [leb] orders group keys; [str] is the conversion of [astype(str)]. *)
Context (leb : V → V → bool) (str : V → V).

Definition row : Type := V * list (option V).

Record frame : Type := Frame {
  index_name : option string;
  columns : list string;
  rows : list row
}.

Definition labels (f : frame) : list V := fst <$> rows f.

(** The positions at which a column name occurs, counted from [i]. *)
Fixpoint positions (c : string) (cols : list string) (i : nat) : list nat :=
  match cols with
  | [] => []
  | c' :: cols' =>
      (if String.eqb c c' then [i] else []) ++ positions c cols' (S i)
  end.

(** The positions selected by a list of names: every column of each name,
    in turn; a name that labels no column is a [KeyError]. *)
Fixpoint locate (names cols : list string) : option (list nat) :=
  match names with
  | [] => Some []
  | c :: names' =>
      match positions c cols 0, locate names' cols with
      | p :: ps, Some qs => Some (p :: ps ++ qs)
      | _, _ => None
      end
  end.

Definition cell_at (cells : list (option V)) (p : nat) : option V :=
  default None (cells !! p).

Definition pick (ps : list nat) (cells : list (option V)) : list (option V) :=
  cell_at cells <$> ps.

(** [f[names]] with a list of names. *)
Definition getitem (f : frame) (names : list string) : option frame :=
  match locate names (columns f) with
  | Some ps =>
      Some (Frame (index_name f)
              ((fun p => default EmptyString (columns f !! p)) <$> ps)
              ((fun r : row => (r.1, pick ps r.2)) <$> rows f))
  | None => None
  end.

Definition cells_of (f : frame) (l : V) : list (option V) :=
  match find (fun r : row => bool_decide (r.1 = l)) (rows f) with
  | Some r => r.2
  | None => replicate (length (columns f)) None
  end.

(** [pd.concat([a, b], axis=1)]: the columns of [a] then those of [b], no
    name changed; rows are matched on their labels and a label missing from
    one table gets missing cells there.  Tables with the same index are
    joined row by row; otherwise both indexes must be free of repeated
    labels.  (The order in which the union lists the labels has changed
    between pandas versions; nothing below depends on it.) *)
Definition concat_columns (a b : frame) : option frame :=
  let name :=
    if bool_decide (index_name a = index_name b) then index_name a else None in
  if bool_decide (labels a = labels b) then
    Some (Frame name (columns a ++ columns b)
            (zip_with (fun ra rb : row => (ra.1, ra.2 ++ rb.2)) (rows a) (rows b)))
  else if bool_decide (NoDup (labels a)) && bool_decide (NoDup (labels b)) then
    Some (Frame name (columns a ++ columns b)
            ((fun l => (l, cells_of a l ++ cells_of b l))
               <$> (labels a ++ filter (fun l => l ∉ labels a) (labels b))))
  else None.

(** [f.dropna(subset=names)]: keep the rows that miss no value in any
    column of those names. *)
Definition dropna (f : frame) (subset : list string) : option frame :=
  match locate subset (columns f) with
  | Some ps =>
      Some (Frame (index_name f) (columns f)
              (filter (fun r : row => Forall is_Some (pick ps r.2)) (rows f)))
  | None => None
  end.

(** [f.index = f.index.astype(str)]; the index keeps its name. *)
Definition index_astype_str (f : frame) : frame :=
  Frame (index_name f) (columns f) ((fun r : row => (str r.1, r.2)) <$> rows f).

(** [f.index.name = name]. *)
Definition set_index_name (name : string) (f : frame) : frame :=
  Frame (Some name) (columns f) (rows f).

Definition head (n : nat) (f : frame) : frame :=
  Frame (index_name f) (columns f) (take n (rows f)).

(** *** Grouping

    [f.groupby(key).agg({c: 'first', ...})].  The key is a column, or the
    index when no column has that name; rows whose key is missing belong to
    no group.  The groups are built in one pass over the rows: the first row
    of a key opens its group with the aggregated columns' cells, every later
    row of that key fills the cells that are still missing. *)

Definition fill (cur new : list (option V)) : list (option V) :=
  zip_with (fun c v => match c with Some _ => c | None => v end) cur new.

Fixpoint upsert (k : V) (vals : list (option V)) (acc : list row) : list row :=
  match acc with
  | [] => [(k, vals)]
  | (k', cur) :: acc' =>
      if decide (k = k') then (k', fill cur vals) :: acc'
      else (k', cur) :: upsert k vals acc'
  end.

Definition key_of (f : frame) (key : string) : option (row → option V) :=
  match positions key (columns f) 0 with
  | [p] =>
      if bool_decide (index_name f = Some key) then None
      else Some (fun r : row => cell_at r.2 p)
  | [] =>
      if bool_decide (index_name f = Some key)
      then Some (fun r : row => Some r.1)
      else None
  | _ :: _ :: _ => None
  end.

Fixpoint locate_each (names cols : list string) : option (list nat) :=
  match names with
  | [] => Some []
  | c :: names' =>
      match positions c cols 0, locate_each names' cols with
      | [p], Some qs => Some (p :: qs)
      | _, _ => None
      end
  end.

Definition group_step (k : row → option V) (ps : list nat)
    (acc : list row) (r : row) : list row :=
  match k r with
  | Some v => upsert v (pick ps r.2) acc
  | None => acc
  end.

Fixpoint insert_row (r : row) (l : list row) : list row :=
  match l with
  | [] => [r]
  | r' :: l' => if leb r.1 r'.1 then r :: l else r' :: insert_row r l'
  end.

(** Groups come out ordered by key. *)
Definition sort_rows (l : list row) : list row := foldr insert_row [] l.

Definition groupby_first (f : frame) (key : string) (aggs : list string)
    : option frame :=
  match key_of f key, locate_each aggs (columns f) with
  | Some k, Some ps =>
      if mem key aggs then None
      else Some (Frame (Some key) aggs
                   (sort_rows (foldl (group_step k ps) [] (rows f))))
  | _, _ => None
  end.

(** *** Files

    The tab-separated files, each as the table [pd.read_csv(path,
    sep='\t', index_col=0)] parses from it: the header names are distinct
    (a repeated name is renamed on reading) and every row is as wide as the
    header. *)

Abbreviation files := (gmap string frame).

Definition parsed (f : frame) : Prop :=
  NoDup (columns f)
  ∧ Forall (fun r : row => length r.2 = length (columns f)) (rows f).

#[global] Instance parsed_dec f : Decision (parsed f).
Proof. unfold parsed. apply _. Defined.

(** A cell body reads and writes files and may fail with an exception. *)
Definition M (A : Type) : Type := files → option (A * files).

Definition ret {A} (a : A) : M A := fun fs => Some (a, fs).

Definition bind {A B} (m : M A) (k : A → M B) : M B :=
  fun fs =>
    match m fs with
    | Some (a, fs') => k a fs'
    | None => None
    end.

Definition lift {A} (o : option A) : M A :=
  fun fs =>
    match o with
    | Some a => Some (a, fs)
    | None => None
    end.

Definition read_csv (path : string) : M frame :=
  fun fs =>
    match fs !! path with
    | Some f => if decide (parsed f) then Some (f, fs) else None
    | None => None
    end.

Definition to_csv (f : frame) (path : string) : M unit :=
  fun fs => Some ((), <[path := f]> fs).

Notation "x <~ m ; k" := (bind m (fun x => k))
  (at level 20, m at level 100, k at level 200, only parsing).

(** *** The two cells *)

(** What differs between the tutorials. *)
Record tutorial : Type := Tutorial {
  metadata_tsv : string;
  export_tsv : string;
  merged_tsv : string;
  subject_tsv : string;
  state_column : string;
  group_column : string;
  ratio_column : string;
  subject_columns : list string;
  subject_index_as_str : bool
}.

Definition merged_columns (t : tutorial) : list string :=
  [state_column t; "host_subject_id"; group_column t; ratio_column t].

(** The cell that aggregates the sample metadata by subject.  It leaves the
    aggregated table in [mf] and shows its first five rows. *)
Definition subject_cell (t : tutorial) : M (frame * frame) :=
  mf <~ read_csv (metadata_tsv t) ;
  mf <~ lift (groupby_first mf "host_subject_id" (subject_columns t)) ;
  let mf := set_index_name "#SampleID" mf in
  let mf := if subject_index_as_str t then index_astype_str mf else mf in
  _ <~ to_csv mf (subject_tsv t) ;
  ret (mf, head 5 mf).

(** The cell that merges the exported log-ratio into the sample metadata.
    It leaves the merged table in [log_ratio_metdata] and shows its first
    two rows. *)
Definition merge_cell (t : tutorial) : M (frame * frame) :=
  metadata_one <~ read_csv (metadata_tsv t) ;
  export <~ read_csv (export_tsv t) ;
  metadata_two <~ lift (getitem export [ratio_column t]) ;
  log_ratio_metdata <~ lift (concat_columns metadata_two metadata_one) ;
  log_ratio_metdata <~ lift (dropna log_ratio_metdata [ratio_column t]) ;
  let log_ratio_metdata := index_astype_str log_ratio_metdata in
  log_ratio_metdata <~ lift (getitem log_ratio_metdata (merged_columns t)) ;
  let log_ratio_metdata := set_index_name "#SampleID" log_ratio_metdata in
  _ <~ to_csv log_ratio_metdata (merged_tsv t) ;
  ret (log_ratio_metdata, head 2 log_ratio_metdata).

(** *** Subjects, samples and first values *)

(** The first value of a column that is not missing. *)
Fixpoint first_valid (l : list (option V)) : option V :=
  match l with
  | [] => None
  | Some v :: _ => Some v
  | None :: l' => first_valid l'
  end.

(** The value of column [c] in a row of [f]. *)
Definition value (f : frame) (c : string) (r : row) : option V :=
  match positions c (columns f) 0 with
  | p :: _ => cell_at r.2 p
  | [] => None
  end.

(** The subject of a sample: its value of [host_subject_id], the grouping
    key. *)
Definition subject (f : frame) (r : row) : option V :=
  match key_of f "host_subject_id" with
  | Some k => k r
  | None => None
  end.

(** The rows of a key, in order. *)
Definition members (k : row → option V) (v : V) (rs : list row) : list row :=
  filter (fun r => k r = Some v) rs.

(** The samples of a subject, in file order. *)
Definition samples (f : frame) (v : V) : list row :=
  members (subject f) v (rows f).

(** What the grouping pass has built after the rows [rs]: one entry per
    key met, and in it, for each aggregated column, the first value present
    among the rows of that key. *)
Definition built (k : row → option V) (ps : list nat) (acc rs : list row)
    : Prop :=
  NoDup (acc.*1)
  ∧ (∀ v, v ∈ acc.*1 ↔ ∃ r, r ∈ rs ∧ k r = Some v)
  ∧ (∀ v cur, (v, cur) ∈ acc →
       length cur = length ps
       ∧ ∀ j, cell_at cur j =
              first_valid ((fun r : row => cell_at (pick ps r.2) j)
                             <$> members k v rs)).

(** The label of a subject's row in the table the subject cell leaves. *)
Definition subject_label (t : tutorial) (v : V) : V :=
  if subject_index_as_str t then str v else v.
End Frames.


Arguments frame : clear implicits.
Arguments row : clear implicits.

(** *** The table cells of the notebooks

    The IBD and the Phylogenetic IBD notebooks read and write the same files
    and columns; the TEMPTED notebook has its own and turns the subject index
    into strings. *)

Definition ibd_tutorial : tutorial :=
  {| metadata_tsv := "IBD-2538/data/metadata.tsv";
     export_tsv := "IBD-2538/ctf-results/sample_plot_data.tsv";
     merged_tsv := "IBD-2538/ctf-results/merged_sample_plot_data.tsv";
     subject_tsv := "IBD-2538/data/subject-metadata.tsv";
     state_column := "timepoint";
     group_column := "ibd";
     ratio_column := "Current_Natural_Log_Ratio";
     subject_columns := ["ibd"; "active_disease"];
     subject_index_as_str := false |}.

Definition tempted_tutorial : tutorial :=
  {| metadata_tsv := "ECAM-Qiita-10249/metadata.tsv";
     export_tsv := "ECAM-Qiita-10249/sample_plot_data.tsv";
     merged_tsv := "ECAM-Qiita-10249/merged_sample_plot_data.tsv";
     subject_tsv := "ECAM-Qiita-10249/subject-metadata.tsv";
     state_column := "month";
     group_column := "delivery";
     ratio_column := "Current_Log_Ratio";
     subject_columns := ["delivery"; "antiexposedall"];
     subject_index_as_str := true |}.

(** The statements of the two cells, as functions of what differs. *)

Definition read_tsv (path : string) : expr :=
  ECall (EAttr (EName "pd") "read_csv") [EStr path]
    [("sep", EStr tab); ("index_col", EInt 0)].

Definition index_to_str (x : string) : stmt :=
  SAssign (EAttr (EName x) "index")
    (ECall (EAttr (EAttr (EName x) "index") "astype") [EName "str"] []).

Definition name_index (x : string) : stmt :=
  SAssign (EAttr (EAttr (EName x) "index") "name") (EStr "#SampleID").

Definition write_tsv (x path : string) : stmt :=
  SExpr (ECall (EAttr (EName x) "to_csv") [EStr path] [("sep", EStr tab)]).

Definition show_head (x : string) (n : Z) : stmt :=
  SExpr (ECall (EAttr (EName x) "head") [EInt n] []).

Definition subject_source (t : tutorial) : list stmt :=
  [ SAssign (EName "mf") (read_tsv (metadata_tsv t));
    SAssign (EName "mf")
      (ECall (EAttr (ECall (EAttr (EName "mf") "groupby")
                       [EStr "host_subject_id"] []) "agg")
         [EDict ((fun c => (EStr c, EStr "first")) <$> subject_columns t)] []);
    name_index "mf" ]
  ++ (if subject_index_as_str t then [index_to_str "mf"] else [])
  ++ [ write_tsv "mf" (subject_tsv t); show_head "mf" 5 ].

Definition merge_source (t : tutorial) : list stmt :=
  [ SImport ["pandas"] (Some "pd");
    SAssign (EName "metadata_one") (read_tsv (metadata_tsv t));
    SAssign (EName "metadata_two")
      (ESubscript (read_tsv (export_tsv t)) (EList [EStr (ratio_column t)]));
    SAssign (EName "log_ratio_metdata")
      (ECall (EAttr (EName "pd") "concat")
         [EList [EName "metadata_two"; EName "metadata_one"]]
         [("axis", EInt 1)]);
    SAssign (EName "log_ratio_metdata")
      (ECall (EAttr (EName "log_ratio_metdata") "dropna") []
         [("subset", EList [EStr (ratio_column t)])]);
    index_to_str "log_ratio_metdata";
    SAssign (EName "log_ratio_metdata")
      (ESubscript (EName "log_ratio_metdata")
         (EList (EStr <$> merged_columns t)));
    name_index "log_ratio_metdata";
    write_tsv "log_ratio_metdata" (merged_tsv t);
    show_head "log_ratio_metdata" 2 ].

Definition is_import (s : stmt) : bool :=
  match s with
  | SImport _ _ | SFromImport _ _ => true
  | _ => false
  end.

(** The statements of a cell after its imports. *)
Definition body (c : cell) : list stmt :=
  filter (fun s => is_import s = false) (source_of c).

(** The tables a notebook writes with [to_csv]: the index of the cell and the
    path. *)
Definition table_writes (nb : notebook) : list (nat * string) :=
  match run nb with
  | Some ess =>
      concat (imap (fun i es =>
                      es ≫= fun e =>
                        match e with
                        | WriteTable (Some p) _ => [(i, p)]
                        | _ => []
                        end) ess)
  | None => []
  end.

(** Where the two cells stand in each notebook: the notebook, the index of
    the subject cell, the index of the merge cell, and the parameters. *)
Definition table_cells : list (notebook * nat * nat * tutorial) :=
  [(ibd, 14, 20, ibd_tutorial);
   (phylo_ibd, 7, 13, ibd_tutorial);
   (tempted, 5, 11, tempted_tutorial)]%nat.

(** *** Small files to run the two cells on

    Four samples of two subjects; sample [a4] has no subject, and the first
    sample of subject [s2] has no diagnosis.  Qurro's export gives a
    log-ratio to two of the samples. *)

Definition example_metadata : frame string :=
  {| index_name := Some "sample_name";
     columns := ["timepoint"; "host_subject_id"; "ibd"; "active_disease"];
     rows := [("a1", [Some "1"; Some "s2"; None; Some "quiescent"]);
              ("a2", [Some "2"; Some "s1"; Some "Control"; Some "quiescent"]);
              ("a3", [Some "3"; Some "s2"; Some "Crohns"; None]);
              ("a4", [Some "3"; None; Some "Crohns"; None])] |}.

Definition example_export : frame string :=
  {| index_name := Some "Sample ID";
     columns := ["Current_Natural_Log_Ratio"; "timepoint"];
     rows := [("a1", [Some "0.5"; Some "1"]);
              ("a3", [None; Some "3"]);
              ("a2", [Some "1.5"; Some "2"])] |}.

Definition example_files : gmap string (frame string) :=
  <[metadata_tsv ibd_tutorial := example_metadata]>
    (<[export_tsv ibd_tutorial := example_export]> ∅).

(** The same, with a sample metadata file that has a column of its own
    named like the log-ratio. *)
Definition example_metadata_with_ratio : frame string :=
  {| index_name := Some "sample_name";
     columns := ["timepoint"; "host_subject_id"; "ibd";
                 "Current_Natural_Log_Ratio"];
     rows := [("a1", [Some "1"; Some "s2"; None; Some "0.4"]);
              ("a2", [Some "2"; Some "s1"; Some "Control"; Some "1.6"]);
              ("a3", [Some "3"; Some "s2"; Some "Crohns"; None])] |}.

Definition example_files_with_ratio : gmap string (frame string) :=
  <[metadata_tsv ibd_tutorial := example_metadata_with_ratio]> example_files.

(** What the two cells leave on these files. *)
Definition example_merged : frame string :=
  {| index_name := Some "#SampleID";
     columns := ["timepoint"; "host_subject_id"; "ibd";
                 "Current_Natural_Log_Ratio"];
     rows := [("a1", [Some "1"; Some "s2"; None; Some "0.5"]);
              ("a2", [Some "2"; Some "s1"; Some "Control"; Some "1.5"])] |}.

Definition example_subjects : frame string :=
  {| index_name := Some "#SampleID";
     columns := ["ibd"; "active_disease"];
     rows := [("s1", [Some "Control"; Some "quiescent"]);
              ("s2", [Some "Crohns"; Some "quiescent"])] |}.

Definition example_merged_with_ratio : frame string :=
  {| index_name := Some "#SampleID";
     columns := ["timepoint"; "host_subject_id"; "ibd";
                 "Current_Natural_Log_Ratio"; "Current_Natural_Log_Ratio"];
     rows := [("a1", [Some "1"; Some "s2"; None; Some "0.5"; Some "0.4"]);
              ("a2", [Some "2"; Some "s1"; Some "Control"; Some "1.5";
                      Some "1.6"])] |}.

(** ** What the notebooks do beyond the specification's lists *)

(** The shell escapes that are no plugin actions. *)
Definition other_shell : list effect :=
  [ShellOther ["cd"; "qiime2-moving-pictures-tutorial"];
   ShellOther ["qiime"; "dev"; "refresh-cache"]].

(** The warning filters the notebooks install. *)
Definition warning_filters : list effect :=
  [WarningFilter "filterwarnings" (Some "ignore") (Some "DeprecationWarning");
   WarningFilter "simplefilter" (Some "ignore") (Some "FutureWarning")].

(** Writes by [visualization.save] and [to_csv]. *)
Definition is_save (e : effect) : bool :=
  match e with
  | Save _ | WriteTable _ _ => true
  | _ => false
  end.

(** *** The tables the two cells compute

    What each cell computes from the tables it has read, apart from the
    reading and the writing; and the samples' values looked up by label, to
    say what the merged table holds. *)

Section Tables.
Context {V : Type} `{!EqDecision V}.
Context (leb : V → V → bool) (str : V → V).

Definition subject_table (t : tutorial) (m : frame V) : option (frame V) :=
  match groupby_first leb m "host_subject_id" (subject_columns t) with
  | Some mf =>
      let mf := set_index_name "#SampleID" mf in
      Some (if subject_index_as_str t then index_astype_str str mf else mf)
  | None => None
  end.

Definition merged_table (t : tutorial) (m ex : frame V) : option (frame V) :=
  match getitem ex [ratio_column t] with
  | Some two =>
      match concat_columns two m with
      | Some cat =>
          match dropna cat [ratio_column t] with
          | Some kept =>
              match getitem (index_astype_str str kept) (merged_columns t) with
              | Some sel => Some (set_index_name "#SampleID" sel)
              | None => None
              end
          | None => None
          end
      | None => None
      end
  | None => None
  end.

(** [read_csv] renames a header name that is repeated, so in a table it has
    read the name of the index is none of the column names. *)
Definition distinct_header (f : frame V) : Prop :=
  ∀ c, index_name f = Some c → c ∉ columns f.




End Tables.

(** ** Names: where they are bound and where they are read *)

(** The built-in names the cells read. *)
Definition builtins : list string :=
  ["str"; "DeprecationWarning"; "FutureWarning"].

(** The reads of names that nothing has bound yet, each with its cell. *)
Fixpoint unbound_from (bound : list string) (ss : list (nat * stmt))
    : list (nat * string) :=
  match ss with
  | [] => []
  | (i, s) :: ss' =>
      ((fun x => (i, x)) <$> filter (fun x => x ∉ bound) (uses s))
        ++ unbound_from (defines s ++ bound) ss'
  end.

Definition unbound (nb : notebook) : list (nat * string) :=
  unbound_from builtins (statements nb).

(** A binding of [x] is live when a later statement reads [x] before any
    rebinds it. *)
Fixpoint live (x : string) (rest : list (nat * stmt)) : bool :=
  match rest with
  | [] => false
  | (_, s) :: rest' =>
      mem x (uses s) || (negb (mem x (defines s)) && live x rest')
  end.

(** The bindings that nothing reads, each with its cell. *)
Fixpoint dead_from (ss : list (nat * stmt)) : list (nat * string) :=
  match ss with
  | [] => []
  | (i, s) :: ss' =>
      ((fun x => (i, x)) <$> filter (fun x => live x ss' = false) (defines s))
        ++ dead_from ss'
  end.

Definition dead (nb : notebook) : list (nat * string) :=
  dead_from (statements nb).

(** ** Result files *)

(** The paths of [nb1]'s results that [nb2] writes as well. *)
Definition overwritten (nb1 nb2 : notebook) : list string :=
  filter (fun p => p ∈ all_writes nb2) (all_writes nb1).

(** The objects a notebook saves with [x.visualization.save(path)]: the cell,
    the call that bound [x], and the path. *)
Definition saved_of (before : list (nat * stmt * globals))
    (j : nat) (s : stmt) (g : globals)
    : list (nat * option (list string) * option string) :=
  match s with
  | SExpr (ECall (EAttr recv m) (a :: _) _) =>
      match attr_chain recv with
      | Some (x, [v]) =>
          if String.eqb m "save" && String.eqb v "visualization" then
            match reaching x before with
            | Some (_, d, gd) => [(j, origin gd d, eval_str g a)]
            | None => []
            end
          else []
      | _ => []
      end
  | _ => []
  end.

Fixpoint saved_from (before rest : list (nat * stmt * globals))
    : list (nat * option (list string) * option string) :=
  match rest with
  | [] => []
  | (j, s, g) :: rest' =>
      saved_of before j s g ++ saved_from ((j, s, g) :: before) rest'
  end.

Definition saved (nb : notebook)
    : list (nat * option (list string) * option string) :=
  saved_from [] (program nb).

(** The paths of the [save] calls of a notebook, in order. *)
Definition saves (nb : notebook) : list (option string) :=
  trace nb ≫= fun e =>
    match e with
    | Save p => [p]
    | _ => []
    end.

(** The plugins whose actions make the visualizations. *)
Definition visualizer_plugins : list string :=
  ["emperor"; "empress"; "qurro"; "longitudinal"].

(** ** Directories *)

(** The directory part of a path: the path up to and including its last
    separator. *)
Fixpoint directory (p : string) : string :=
  match p with
  | EmptyString => EmptyString
  | String c p' =>
      if is_infix "/" p' then String c (directory p')
      else if Ascii.eqb c "/"%char then "/" else EmptyString
  end.

(** Statements that create a directory: a call of [os.mkdir] or
    [os.makedirs], a shell [mkdir]. *)
Definition makes_directory (g : globals) (s : stmt) : bool :=
  match s with
  | SShell (prog :: _) => String.eqb prog "mkdir"
  | _ =>
      existsb (fun c =>
                 bool_decide (resolve g (callee c) = Some ["os"; "mkdir"])
                 || bool_decide (resolve g (callee c) = Some ["os"; "makedirs"]))
        (stmt_calls s)
  end.

(** The directories a trace writes into before it has read or written any
    file in them: nothing the notebook has done by then shows that they
    exist.  [seen] holds the directories of the files read and written so
    far. *)
Fixpoint unseen_from (seen : list string) (t : list effect) : list string :=
  match t with
  | [] => []
  | e :: t' =>
      let seen := (directory <$> reads e) ++ seen in
      filter (fun d => d ∉ seen) (directory <$> writes e)
        ++ unseen_from ((directory <$> writes e) ++ seen) t'
  end.

Definition unseen_directories (nb : notebook) : list string :=
  distinct (unseen_from [] (trace nb)).


(** ** What the factorizations are given *)

(** The calls that bind what the notebooks pass to a gemelli action: the
    loading of a stored artifact or metadata file, and the two actions that
    prepare a table. *)
Definition input_producers : list (list string) :=
  [["qiime2"; "Artifact"; "load"];
   ["qiime2"; "Metadata"; "load"];
   plugin_action "fragment_insertion" "methods" "filter_features";
   plugin_action "gemelli" "actions" "clr_transformation"].

Definition to_gemelli (l : link) : bool :=
  bool_decide (take 3 (consumer l) = ["qiime2"; "plugins"; "gemelli"]).

(** ** Names bound by imports and by assignments *)

Definition imported (nb : notebook) : list string :=
  stmts_of nb ≫= fun s =>
    match s with
    | SImport _ _ | SFromImport _ _ => defines s
    | _ => []
    end.

Definition assigned (nb : notebook) : list string :=
  stmts_of nb ≫= fun s =>
    match s with
    | SAssign _ _ => defines s
    | _ => []
    end.

(** The effects of running a notebook again in the namespace its first run
    has left. *)
Definition rerun (nb : notebook) : option (list (list effect)) :=
  match exec_cells ∅ nb with
  | Some (_, g) => fst <$> exec_cells g nb
  | None => None
  end.

(** *** The sample metadata of the small example, with two more samples *)

Definition example_metadata_more : frame string :=
  {| index_name := Some "sample_name";
     columns := ["timepoint"; "host_subject_id"; "ibd"; "active_disease"];
     rows := rows example_metadata
             ++ [("a5", [Some "4"; Some "s3"; Some "UC"; None]);
                 ("a6", [Some "5"; Some "s2"; Some "UC"; Some "active"])] |}.

Definition example_subjects_more : frame string :=
  {| index_name := Some "#SampleID";
     columns := ["ibd"; "active_disease"];
     rows := [("s1", [Some "Control"; Some "quiescent"]);
              ("s2", [Some "Crohns"; Some "quiescent"]);
              ("s3", [Some "UC"; None])] |}.

(** ** Files passed between command lines *)

(** The files the command lines of a notebook are given to read, and those
    they are told to write: the cell, the plugin and the path. *)
Definition cli_reads (nb : notebook) : list (nat * string * string) :=
  commands nb ≫= fun '(i, (plugin, _, opts)) =>
    (fun p => (i, plugin, p)) <$> option_values reads_option opts.

Definition cli_writes (nb : notebook) : list (nat * string * string) :=
  commands nb ≫= fun '(i, (plugin, _, opts)) =>
    (fun p => (i, plugin, p)) <$> option_values writes_option opts.


(** * Properties of the notebooks *)

Ltac in_list :=
  repeat first [apply list_elem_of_here | apply list_elem_of_further].

Ltac in_notebooks := unfold notebooks; simpl; in_list.

(** ** Execution is total on straight-line cells and composes in sequence *)

Lemma exec_stmt_straight_line g s :
  straight_line s = true → is_Some (exec_stmt g s).
Proof. destruct s; simpl; intros H; try discriminate; eauto. Qed.

Lemma exec_stmts_straight_line ss :
  Forall (fun s => straight_line s = true) ss →
  ∀ g, is_Some (exec_stmts g ss).
Proof.
  induction 1 as [|s ss Hs _ IH]; intros g; simpl; [eauto|].
  destruct (exec_stmt_straight_line g s Hs) as [[es g'] ->].
  destruct (IH g') as [[es' g''] ->]. eauto.
Qed.

Lemma exec_cells_straight_line cs :
  Forall (fun s => straight_line s = true) (stmts_of cs) →
  ∀ g, ∃ ess g', exec_cells g cs = Some (ess, g') ∧ length ess = length cs.
Proof.
  unfold stmts_of. induction cs as [|c cs IH]; intros H g; simpl.
  - by exists [], g.
  - rewrite bind_cons in H. apply Forall_app in H as [Hc Hcs].
    unfold exec_cell.
    destruct (exec_stmts_straight_line _ Hc g) as [[es g'] ->].
    destruct (IH Hcs g') as (ess & g'' & -> & Hlen).
    exists (es :: ess), g''. simpl. by rewrite Hlen.
Qed.

Lemma exec_cells_app g cs1 cs2 :
  exec_cells g (cs1 ++ cs2) =
    match exec_cells g cs1 with
    | Some (ess1, g1) =>
        match exec_cells g1 cs2 with
        | Some (ess2, g2) => Some (ess1 ++ ess2, g2)
        | None => None
        end
    | None => None
    end.
Proof.
  revert g. induction cs1 as [|c cs1 IH]; intros g; simpl.
  - by destruct (exec_cells g cs2) as [[??]|].
  - destruct (exec_cell g c) as [[es g']|]; [|done].
    rewrite IH. destruct (exec_cells g' cs1) as [[ess1 g1]|]; [|done].
    by destruct (exec_cells g1 cs2) as [[ess2 g2]|].
Qed.

(** Each cell's effects are those of running that cell alone in the
    namespace the cells before it have left. *)
Lemma exec_cells_each g cs ess g' :
  exec_cells g cs = Some (ess, g') →
  Forall2 (fun c es => ∃ g1 g2, exec_cell g1 c = Some (es, g2)) cs ess.
Proof.
  revert g ess. induction cs as [|c cs IH]; intros g ess; simpl.
  - intros [= <- _]. constructor.
  - destruct (exec_cell g c) as [[es g1]|] eqn:Hc; [|done].
    destruct (exec_cells g1 cs) as [[ess' g2]|] eqn:Hcs; [|done].
    intros [= <- ->]. constructor; [by exists g, g1|by eapply IH].
Qed.

(** Every statement of every notebook is straight-line. *)
Lemma notebooks_straight_line nb :
  nb ∈ notebooks → Forall (fun s => straight_line s = true) (stmts_of nb).
Proof. revert nb. apply Forall_forall. compute_done. Qed.

(** ** C1 *)

(** C1, as stated, fails: the first code cell of the Phylogenetic RPCA
    notebook is the shell escape [!cd qiime2-moving-pictures-tutorial], whose
    effect is none of loading an artifact, calling a plugin action or
    manipulating a table. *)
Lemma cell_effects_beyond_spec_kinds :
  ¬ (∀ nb, nb ∈ notebooks → ∀ e, e ∈ trace nb → kind_of e ∈ spec_kinds).
Proof.
  intros H.
  assert (phylo_rpca ∈ notebooks) as Hnb by in_notebooks.
  assert (ShellOther ["cd"; "qiime2-moving-pictures-tutorial"] ∈ trace phylo_rpca)
    as He by compute_done.
  specialize (H _ Hnb _ He). revert H. compute_done.
Qed.

(** C1, amended: every call and shell escape of every code cell is classified,
    and its effect is of one of the three kinds the specification names or of
    one of four more: writing a result file ([visualization.save], [to_csv]),
    configuring the warning filters, running a shell command that is not a
    plugin action, computing a path with [os.path.join].  Each of the four
    occurs in some cell. *)
Theorem cell_effect_kinds :
  (∀ nb, nb ∈ notebooks → ∀ e, e ∈ trace nb →
     kind_of e ∈ spec_kinds ∨ kind_of e ∈ other_kinds)
  ∧ (∀ k, k ∈ other_kinds →
       ∃ nb e, nb ∈ notebooks ∧ e ∈ trace nb ∧ kind_of e = k).
Proof.
  split.
  - intros nb Hnb e He. revert e He. apply Forall_forall.
    revert nb Hnb. apply Forall_forall. compute_done.
  - intros k Hk. unfold other_kinds in Hk.
    repeat (apply elem_of_cons in Hk as [->|Hk]); [..|by apply elem_of_nil in Hk].
    + exists ibd, (Save (Some "IBD-2538/ctf-results/qurro.qzv")).
      split_and!; [in_notebooks|compute_done|done].
    + exists ibd, (WarningFilter "filterwarnings" (Some "ignore") (Some "DeprecationWarning")).
      split_and!; [in_notebooks|compute_done|done].
    + exists phylo_rpca, (ShellOther ["qiime"; "dev"; "refresh-cache"]).
      split_and!; [in_notebooks|compute_done|done].
    + exists ibd, PathJoin.
      split_and!; [in_notebooks|compute_done|done].
Qed.

Lemma cell_effect_kinds_witness :
  kind_of (Save (Some "IBD-2538/ctf-results/lme_log_ratio.qzv")) ∈ spec_kinds
  ∨ kind_of (Save (Some "IBD-2538/ctf-results/lme_log_ratio.qzv")) ∈ other_kinds.
Proof.
  apply (proj1 cell_effect_kinds ibd).
  - in_notebooks.
  - vm_compute. in_list.
Defined.

(** ** C2 *)

(** C2: no cell defines a function, a class or a lambda, loops or branches, so
    nothing a notebook calls is defined in it; every gemelli action called
    through the Python API is a name imported from
    [qiime2.plugins.gemelli.actions], and every call resolves to an imported
    name or to a method of an object.  Hence each notebook runs to the end
    from any namespace, one list of effects per cell. *)
Theorem notebooks_are_straight_line nb :
  nb ∈ notebooks →
  Forall (fun s => straight_line s = true) (stmts_of nb)
  ∧ gemelli_calls Api nb ⊆ gemelli_imports nb
  ∧ Forall (fun e => e ≠ Unclassified) (trace nb)
  ∧ ∀ g, ∃ ess g', exec_cells g nb = Some (ess, g') ∧ length ess = length nb.
Proof.
  intros Hnb.
  assert (gemelli_calls Api nb ⊆ gemelli_imports nb
          ∧ Forall (fun e => e ≠ Unclassified) (trace nb)) as (Hg & Hu).
  { revert nb Hnb. apply Forall_forall. compute_done. }
  split_and!; [by apply notebooks_straight_line|done..|].
  by apply exec_cells_straight_line, notebooks_straight_line.
Qed.

Lemma notebooks_are_straight_line_witness :
  ∃ ess g', exec_cells ∅ tempted = Some (ess, g') ∧ length ess = length tempted.
Proof.
  refine (proj2 (proj2 (proj2 (notebooks_are_straight_line tempted _))) ∅).
  in_notebooks.
Defined.

(** ** C3 *)

(** C3, as stated, fails: the IBD notebook also runs gemelli's plain [rpca],
    which is none of the four methods the specification names. *)
Lemma rpca_is_also_run :
  ¬ (∀ m, m ∈ methods_run Api notebooks ++ methods_run Cli notebooks →
          m ∈ spec_methods).
Proof.
  intros H. specialize (H RPCA ltac:(compute_done)). revert H. compute_done.
Qed.

(** C3, amended: each of CTF, Phylogenetic CTF, Phylogenetic RPCA and TEMPTED
    is run by a gemelli action in some cell, through the Python API (CTF,
    Phylogenetic CTF, TEMPTED) or the command line (Phylogenetic RPCA); the
    factorizations the notebooks run are these four and plain RPCA, which the
    IBD notebook runs through the API. *)
Theorem factorizations_run :
  methods_run Api notebooks = [RPCA; CTF; PhyloCTF; TEMPTED]
  ∧ methods_run Cli notebooks = [PhyloRPCA]
  ∧ methods_run Api [ibd] = [RPCA; CTF]
  ∧ (∀ m, m ∈ spec_methods ↔
          m ∈ methods_run Api notebooks ++ methods_run Cli notebooks ∧ m ≠ RPCA).
Proof.
  split_and!; [reflexivity..|].
  intros []; split; first [compute_done | intros [? ?]; first [done|compute_done]].
Qed.

Lemma factorizations_run_witness :
  TEMPTED ∈ methods_run Api notebooks ++ methods_run Cli notebooks
  ∧ TEMPTED ≠ RPCA.
Proof.
  apply (proj1 (proj2 (proj2 (proj2 factorizations_run)) TEMPTED)).
  unfold spec_methods. in_list.
Defined.

(** ** C4 *)

(** C4, as stated, fails: [!cd qiime2-moving-pictures-tutorial] reaches the
    shell and is no invocation of a plugin action. *)
Lemma shell_beyond_spec_interfaces :
  ¬ (∀ nb, nb ∈ notebooks → ∀ e, e ∈ trace nb →
       ∀ i, interface_of e = Some i → i ∈ spec_interfaces).
Proof.
  intros H.
  assert (phylo_rpca ∈ notebooks) as Hnb by in_notebooks.
  assert (ShellOther ["cd"; "qiime2-moving-pictures-tutorial"] ∈ trace phylo_rpca)
    as He by compute_done.
  specialize (H _ Hnb _ He IOtherShell eq_refl). revert H. compute_done.
Qed.

(** C4, amended: whatever a cell does to the file system or through the shell
    goes through the framework's artifact files, a command-line invocation of
    a plugin action or a tab-separated metadata file, except for two shell
    escapes of the Phylogenetic RPCA notebook that are no plugin actions:
    [cd qiime2-moving-pictures-tutorial] and [qiime dev refresh-cache]. *)
Theorem cell_interfaces :
  (∀ nb, nb ∈ notebooks → ∀ e, e ∈ trace nb →
     ∀ i, interface_of e = Some i → i ∈ spec_interfaces ∨ e ∈ other_shell)
  ∧ Forall (fun nb => Forall (fun e => e ∉ other_shell) (trace nb))
      [ibd; phylo_ibd; tempted]
  ∧ Forall (fun e => e ∈ trace phylo_rpca) other_shell.
Proof.
  split_and!; [|compute_done..].
  intros nb Hnb e He i Hi.
  assert (interface_of e ∈ [None; Some IArtifactFile; Some ICommandLine; Some ITsvFile]
          ∨ e ∈ other_shell) as [H|H]; [|rewrite Hi in H|by right].
  { clear Hi. revert e He. apply Forall_forall. revert nb Hnb. apply Forall_forall.
    compute_done. }
  left. destruct i; first [compute_done | exfalso; revert H; compute_done].
Qed.

Lemma cell_interfaces_witness :
  IArtifactFile ∈ spec_interfaces
  ∨ ArtifactLoad (Some "IBD-2538/data/table.qza") ∈ other_shell.
Proof.
  refine (proj1 cell_interfaces ibd _ (ArtifactLoad (Some "IBD-2538/data/table.qza")) _
            IArtifactFile eq_refl).
  - in_notebooks.
  - vm_compute. in_list.
Defined.

(** ** C5 *)

(** C5, as stated, fails: the first code cell of the IBD notebook suppresses
    warnings, with [warnings.filterwarnings] and [warnings.simplefilter],
    both with the action ["ignore"]. *)
Lemma warnings_are_suppressed :
  ¬ (∀ nb, nb ∈ notebooks →
       Forall (fun s => handles_errors s = false) (stmts_of nb)
       ∧ Forall (fun e => filters_warnings e = false) (trace nb)).
Proof.
  intros H.
  assert (ibd ∈ notebooks) as Hnb by in_notebooks.
  destruct (H _ Hnb) as [_ Hf]. revert Hf. compute_done.
Qed.

(** C5, amended: no cell catches, raises or scopes an error or a warning; the
    only processing of warnings in the source is their suppression, by
    [warnings.filterwarnings] for [DeprecationWarning] and
    [warnings.simplefilter] for [FutureWarning], both with action ["ignore"];
    no cell raises a warning or prints of its own (every call is one of the
    classified ones, and [warnings.warn] or [print] is none of them); and
    every warning among the recorded outputs was raised from a file of an
    installed package. *)
Theorem error_handling nb :
  nb ∈ notebooks →
  Forall (fun s => handles_errors s = false) (stmts_of nb)
  ∧ Forall (fun e => filters_warnings e = true → e ∈ warning_filters) (trace nb)
  ∧ Forall (fun e => e ≠ Unclassified) (trace nb)
  ∧ Forall (fun w => external_file w.1.1 = true) (recorded_warnings nb).
Proof.
  intros Hnb. split_and!; revert nb Hnb; apply Forall_forall; compute_done.
Qed.

Lemma error_handling_witness :
  Forall (fun s => handles_errors s = false) (stmts_of ibd)
  ∧ Forall (fun e => filters_warnings e = true → e ∈ warning_filters) (trace ibd)
  ∧ Forall (fun e => e ≠ Unclassified) (trace ibd)
  ∧ Forall (fun w => external_file w.1.1 = true) (recorded_warnings ibd).
Proof.
  apply error_handling. in_notebooks.
Defined.

(** ** C7 *)

(** C7, as stated, fails: the shell escapes of the Phylogenetic RPCA notebook
    start processes; its first code cell, [!cd ...], is one. *)
Lemma shell_escapes_start_processes :
  ¬ (∀ nb, nb ∈ notebooks →
       Forall (fun s => concurrent s = false ∧ starts_process s = false)
         (stmts_of nb)).
Proof.
  intros H.
  assert (phylo_rpca ∈ notebooks) as Hnb by in_notebooks.
  specialize (H _ Hnb). revert H. compute_done.
Qed.

(** C7, amended: a notebook runs its cells one after the other.  Running two
    runs of cells in a row is running the first, then the second in the
    namespace the first has left, and the effects are those of the first
    followed by those of the second; the trace of each notebook is the
    concatenation, in cell order, of what each cell does when run on its own.
    No cell introduces concurrency: none imports a threading, process or
    event-loop module, uses an [async] form or an [await], or sends a shell
    job to the background.  The only processes that originate in the source
    are those of the six shell escapes of the command-line Phylogenetic RPCA
    notebook, each a foreground command that the kernel waits for. *)
Theorem cells_run_in_sequence :
  (∀ g cs1 cs2,
     exec_cells g (cs1 ++ cs2) =
       match exec_cells g cs1 with
       | Some (ess1, g1) =>
           match exec_cells g1 cs2 with
           | Some (ess2, g2) => Some (ess1 ++ ess2, g2)
           | None => None
           end
       | None => None
       end)
  ∧ (∀ nb, nb ∈ notebooks →
       (∃ ess, run nb = Some ess ∧ trace nb = concat ess
               ∧ Forall2 (fun c es => ∃ g1 g2, exec_cell g1 c = Some (es, g2))
                   nb ess)
       ∧ Forall (fun s => concurrent s = false) (stmts_of nb))
  ∧ Forall (fun nb => Forall (fun s => starts_process s = false) (stmts_of nb))
      [ibd; phylo_ibd; tempted]
  ∧ length (filter (fun s => starts_process s = true) (stmts_of phylo_rpca))
    = 6%nat.
Proof.
  split_and!; [apply exec_cells_app| |compute_done|reflexivity].
  intros nb Hnb. split.
  - destruct (exec_cells_straight_line nb (notebooks_straight_line nb Hnb) ∅)
      as (ess & g' & Hex & _).
    exists ess. unfold trace, run. rewrite Hex. simpl.
    split_and!; [done..|by eapply exec_cells_each].
  - revert nb Hnb. apply Forall_forall. compute_done.
Qed.

Lemma cells_run_in_sequence_witness :
  Forall (fun s => concurrent s = false) (stmts_of phylo_rpca).
Proof.
  apply (proj1 (proj2 cells_run_in_sequence) phylo_rpca). in_notebooks.
Defined.

(** ** C8 *)

(** C8, as stated, fails: the factorization cell of the Phylogenetic RPCA
    notebook writes [phylo-ordination.qza], and the cells after it load that
    file as an input. *)
Lemma written_files_are_loaded :
  ¬ (∀ nb, nb ∈ notebooks → ∀ p, p ∈ all_writes nb →
       ∀ nb', nb' ∈ notebooks → p ∉ all_reads nb').
Proof.
  intros H.
  assert (phylo_rpca ∈ notebooks) as Hnb by in_notebooks.
  apply (H _ Hnb "qiime2-moving-pictures-tutorial/phylo-ordination.qza"
           ltac:(compute_done) _ Hnb).
  compute_done.
Qed.

(** C8, amended: no cell writes to a file that a notebook needs before it
    runs, that is, to a path some notebook reads without having written it
    first; and every write by [visualization.save] or [to_csv] goes to a path
    that no cell reads.  The paths that are both written and read are the
    five artifacts the command-line factorization writes for the cells after
    it.  Every file effect names its path. *)
Theorem input_files_are_not_written :
  (∀ nb, nb ∈ notebooks →
     Forall (fun e => path_known e = true) (trace nb)
     ∧ (∀ p, p ∈ inputs nb → ∀ nb', nb' ∈ notebooks → p ∉ all_writes nb')
     ∧ (∀ e, e ∈ trace nb → is_save e = true →
          ∀ p, p ∈ writes e → ∀ nb', nb' ∈ notebooks → p ∉ all_reads nb'))
  ∧ (∀ p, (∃ nb nb', nb ∈ notebooks ∧ nb' ∈ notebooks
                     ∧ p ∈ all_writes nb ∧ p ∈ all_reads nb')
          ↔ p ∈ (fun a => "qiime2-moving-pictures-tutorial/phylo-" +:+ a)
                  <$> ["ordination.qza"; "distance.qza"; "tree.qza";
                       "table.qza"; "taxonomy.qza"])
  ∧ distinct (notebooks ≫= inputs) =
      ((fun a => "IBD-2538/" +:+ a)
         <$> ["data/table.qza"; "data/rarefied-table.qza"; "data/metadata.tsv";
              "data/sepp-insertion-tree.qza"; "data/taxonomy.qza";
              "ctf-results/sample_plot_data.tsv"])
      ++ ((fun a => "qiime2-moving-pictures-tutorial/" +:+ a)
            <$> ["table.qza"; "rooted-tree.qza"; "taxonomy.qza";
                 "sample-metadata.tsv"])
      ++ ((fun a => "ECAM-Qiita-10249/" +:+ a)
            <$> ["table.qza"; "metadata.tsv"; "insertion-tree.qza";
                 "taxonomy.qza"; "sample_plot_data.tsv"]).
Proof.
  split_and!; [| |reflexivity].
  - intros nb Hnb.
    assert (Forall (fun e => path_known e = true) (trace nb)
            ∧ Forall (fun p => Forall (fun nb' => p ∉ all_writes nb') notebooks)
                (inputs nb)
            ∧ Forall (fun e => is_save e = true →
                Forall (fun p => Forall (fun nb' => p ∉ all_reads nb') notebooks)
                  (writes e)) (trace nb)) as (H1 & H2 & H3).
    { revert nb Hnb. apply Forall_forall. compute_done. }
    split_and!; [done| |].
    + intros p Hp nb' Hnb'.
      rewrite Forall_forall in H2. specialize (H2 p Hp).
      rewrite Forall_forall in H2. by apply H2.
    + intros e He Hs p Hp nb' Hnb'.
      rewrite Forall_forall in H3. specialize (H3 e He Hs).
      rewrite Forall_forall in H3. specialize (H3 p Hp).
      rewrite Forall_forall in H3. by apply H3.
  - intros p. split.
    + intros (nb & nb' & Hnb & Hnb' & Hw & Hr).
      assert (Forall (fun nb => Forall (fun p =>
                Forall (fun nb' => p ∈ all_reads nb' →
                  p ∈ (fun a => "qiime2-moving-pictures-tutorial/phylo-" +:+ a)
                        <$> ["ordination.qza"; "distance.qza"; "tree.qza";
                             "table.qza"; "taxonomy.qza"]) notebooks)
                (all_writes nb)) notebooks) as H by compute_done.
      rewrite Forall_forall in H. specialize (H nb Hnb).
      rewrite Forall_forall in H. specialize (H p Hw).
      rewrite Forall_forall in H. by apply (H nb').
    + intros Hp. exists phylo_rpca, phylo_rpca.
      split_and!; [in_notebooks..| |]; revert p Hp; apply Forall_forall; compute_done.
Qed.

Lemma input_files_are_not_written_witness :
  "IBD-2538/data/metadata.tsv" ∉ all_writes phylo_ibd.
Proof.
  refine (proj1 (proj2 (proj1 input_files_are_not_written ibd _))
            "IBD-2538/data/metadata.tsv" _ phylo_ibd _).
  - in_notebooks.
  - vm_compute. in_list.
  - in_notebooks.
Defined.

(** ** Tables: columns, selection and missing values *)

Section FrameFacts.
Context {V : Type} `{!EqDecision V}.
Context (leb : V → V → bool) (str : V → V).

Implicit Types (f : frame V) (r : row V) (cols names : list string).
Implicit Types (cells cur vals : list (option V)) (ps : list nat).

Lemma positions_spec c cols i p :
  p ∈ positions c cols i ↔ ∃ q, p = (i + q)%nat ∧ cols !! q = Some c.
Proof.
  revert i. induction cols as [|c' cols IH]; intros i; simpl.
  - split; [by intros ?%elem_of_nil|by intros (? & _ & ?)].
  - rewrite elem_of_app, IH. split.
    + intros [Hp|(q & -> & Hq)].
      * destruct (String.eqb_spec c c') as [->|]; [|by apply elem_of_nil in Hp].
        apply list_elem_of_singleton in Hp as ->. exists 0%nat. split; [lia|done].
      * exists (S q). split; [lia|done].
    + intros ([|q] & -> & Hq); simpl in Hq.
      * left. injection Hq as ->. rewrite String.eqb_refl.
        apply list_elem_of_singleton. lia.
      * right. exists q. split; [lia|done].
Qed.

Lemma positions_absent c cols i : c ∉ cols → positions c cols i = [].
Proof.
  intros Hc. destruct (positions c cols i) as [|p ps] eqn:Hp; [done|].
  assert (p ∈ positions c cols i) as (q & _ & Hq)%positions_spec
    by (rewrite Hp; left).
  destruct Hc. by eapply list_elem_of_lookup_2.
Qed.

Lemma positions_NoDup c cols i p ps :
  NoDup cols → positions c cols i = p :: ps →
  ps = [] ∧ ∃ q, p = (i + q)%nat ∧ cols !! q = Some c.
Proof.
  intros Hnd Hp. split.
  - revert i Hp. induction Hnd as [|c' cols Hc' Hnd IH]; intros i; simpl; [done|].
    destruct (String.eqb_spec c c') as [->|].
    + rewrite (positions_absent _ _ _ Hc'). by intros [= _ <-].
    + simpl. apply IH.
  - apply positions_spec. rewrite Hp. left.
Qed.

(** Selecting by name from distinct column names yields the names asked
    for. *)
Lemma locate_NoDup names cols ps :
  NoDup cols → locate names cols = Some ps →
  (fun p => default EmptyString (cols !! p)) <$> ps = names.
Proof.
  intros Hnd. revert ps. induction names as [|c names IH]; intros ps; simpl.
  - by intros [= <-].
  - destruct (positions c cols 0) as [|p ps'] eqn:Hp; [done|].
    destruct (locate names cols) as [qs|]; [|done].
    intros [= <-].
    destruct (positions_NoDup _ _ _ _ _ Hnd Hp) as (-> & q & -> & Hq).
    simpl. rewrite Hq. simpl. f_equal. by apply IH.
Qed.

(** Every selected position carries one of the names asked for. *)
Lemma locate_lookup names cols ps p :
  locate names cols = Some ps → p ∈ ps →
  ∃ c, c ∈ names ∧ cols !! p = Some c.
Proof.
  revert ps. induction names as [|c names IH]; intros ps; simpl.
  - intros [= <-] ?%elem_of_nil. done.
  - destruct (positions c cols 0) as [|p' ps'] eqn:Hp; [done|].
    destruct (locate names cols) as [qs|]; [|done].
    intros [= <-] Hin.
    rewrite app_comm_cons, elem_of_app, <-Hp in Hin. destruct Hin as [Hin|Hin].
    + apply positions_spec in Hin as (q & -> & Hq). exists c. split; [left|done].
    + destruct (IH qs eq_refl Hin) as (c' & ? & ?). exists c'. split; [by right|done].
Qed.

(** ... and every position of a name asked for is selected. *)
Lemma locate_complete names cols ps c p :
  locate names cols = Some ps → c ∈ names → cols !! p = Some c → p ∈ ps.
Proof.
  revert ps. induction names as [|c' names IH]; intros ps; simpl.
  - intros _ ?%elem_of_nil. done.
  - destruct (positions c' cols 0) as [|p' ps'] eqn:Hp; [done|].
    destruct (locate names cols) as [qs|]; [|done].
    intros [= <-] Hc Hcol. rewrite app_comm_cons, elem_of_app, <-Hp.
    apply elem_of_cons in Hc as [->|Hc].
    + left. apply positions_spec. by exists p.
    + right. by apply IH.
Qed.

Lemma cell_at_pick ps cells q p :
  ps !! q = Some p → pick ps cells !! q = Some (cell_at cells p).
Proof. intros Hq. unfold pick. by rewrite list_lookup_fmap, Hq. Qed.

Lemma getitem_spec f names f' :
  getitem f names = Some f' →
  ∃ ps, locate names (columns f) = Some ps
    ∧ index_name f' = index_name f
    ∧ columns f' = (fun p => default EmptyString (columns f !! p)) <$> ps
    ∧ rows f' = (fun r => (r.1, pick ps r.2)) <$> rows f.
Proof.
  unfold getitem. destruct (locate names (columns f)) as [ps|]; [|done].
  intros [= <-]. by exists ps.
Qed.

Lemma concat_columns_columns a b f :
  concat_columns a b = Some f → columns f = columns a ++ columns b.
Proof.
  unfold concat_columns. repeat case_match; try done; by intros [= <-].
Qed.

Lemma dropna_spec f names f' :
  dropna f names = Some f' →
  ∃ ps, locate names (columns f) = Some ps
    ∧ index_name f' = index_name f
    ∧ columns f' = columns f
    ∧ rows f' = filter (fun r => Forall is_Some (pick ps r.2)) (rows f).
Proof.
  unfold dropna. destruct (locate names (columns f)) as [ps|]; [|done].
  intros [= <-]. by exists ps.
Qed.

Lemma read_csv_spec path (fs : gmap string (frame V)) f fs' :
  read_csv path fs = Some (f, fs') →
  fs' = fs ∧ fs !! path = Some f ∧ parsed f.
Proof.
  unfold read_csv. destruct (fs !! path) as [f0|]; [|done].
  destruct (decide (parsed f0)); [|done]. by intros [= <- <-].
Qed.

Lemma lift_spec {A} (o : option A) (fs : gmap string (frame V)) a fs' :
  lift o fs = Some (a, fs') → o = Some a ∧ fs' = fs.
Proof. unfold lift. destruct o; [|done]. by intros [= <- <-]. Qed.

(** What the merge cell writes, for any parameters and any files. *)
Lemma merge_cell_spec t (fs : gmap string (frame V)) mf shown fs' :
  merge_cell str t fs = Some ((mf, shown), fs') →
  fs' = <[merged_tsv t := mf]> fs
  ∧ index_name mf = Some "#SampleID"
  ∧ ((∀ m, fs !! metadata_tsv t = Some m → ratio_column t ∉ columns m) →
     columns mf = merged_columns t)
  ∧ (∀ r q, r ∈ rows mf → columns mf !! q = Some (ratio_column t) →
       ∃ v, r.2 !! q = Some (Some v)).
Proof.
  unfold merge_cell, bind.
  destruct (read_csv (metadata_tsv t) fs) as [[m fs1]|] eqn:H1; [|done].
  apply read_csv_spec in H1 as (-> & Hm & Hmnd & _).
  destruct (read_csv (export_tsv t) fs) as [[ex fs2]|] eqn:H2; [|done].
  apply read_csv_spec in H2 as (-> & _ & Hexnd & _).
  destruct (lift (getitem ex [ratio_column t]) fs) as [[two fs3]|] eqn:H3; [|done].
  apply lift_spec in H3 as (H3 & ->).
  destruct (lift (concat_columns two m) fs) as [[cat fs4]|] eqn:H4; [|done].
  apply lift_spec in H4 as (H4 & ->).
  destruct (lift (dropna cat [ratio_column t]) fs) as [[dr fs5]|] eqn:H5; [|done].
  apply lift_spec in H5 as (H5 & ->).
  destruct (lift (getitem (index_astype_str str dr) (merged_columns t)) fs)
    as [[sel fs6]|] eqn:H6; [|done].
  apply lift_spec in H6 as (H6 & ->).
  unfold to_csv, ret. intros [= <- _ <-].
  apply getitem_spec in H3 as (ps3 & Hl3 & _ & Hc3 & _).
  apply concat_columns_columns in H4.
  apply dropna_spec in H5 as (ps5 & Hl5 & _ & Hc5 & Hr5).
  apply getitem_spec in H6 as (ps6 & Hl6 & _ & Hc6 & Hr6).
  unfold index_astype_str in Hl6, Hc6, Hr6.
  cbn [columns rows] in Hl6, Hc6, Hr6. split_and!; [done..| |].
  - intros Hfresh. simpl. rewrite Hc6. apply locate_NoDup; [|done].
    rewrite Hc5, H4, Hc3, (locate_NoDup _ _ _ Hexnd Hl3). simpl.
    apply NoDup_cons. split; [by apply Hfresh|done].
  - simpl. intros r q Hr Hq.
    rewrite Hr6, <-list_fmap_compose in Hr.
    apply list_elem_of_fmap in Hr as (r0 & -> & Hr0). simpl.
    rewrite Hc6, list_lookup_fmap in Hq.
    destruct (ps6 !! q) as [p|] eqn:Hp; [|done].
    rewrite (cell_at_pick _ _ _ _ Hp).
    assert (columns dr !! p = Some (ratio_column t)) as Hcol.
    { destruct (locate_lookup _ _ _ p Hl6) as (c & _ & Hc).
      { by eapply list_elem_of_lookup_2. }
      simpl in Hq. rewrite Hc in Hq |- *. simpl in Hq. by injection Hq as ->. }
    assert (p ∈ ps5) as Hin.
    { eapply locate_complete; [done|left|by rewrite <-Hc5]. }
    rewrite Hr5 in Hr0. apply list_elem_of_filter in Hr0 as [Hall _].
    rewrite Forall_forall in Hall.
    destruct (Hall (cell_at r0.2 p)) as [v Hv].
    { unfold pick. apply list_elem_of_fmap. by exists p. }
    exists v. by rewrite Hv.
Qed.

(** *** Grouping *)

Lemma first_valid_snoc (l : list (option V)) x :
  first_valid (l ++ [x]) =
    match first_valid l with
    | Some v => Some v
    | None => x
    end.
Proof.
  induction l as [|[v|] l IH]; simpl; [by destruct x|done|done].
Qed.

Lemma length_fill cur vals :
  length vals = length cur → length (fill cur vals) = length cur.
Proof. intros H. unfold fill. rewrite length_zip_with. lia. Qed.

Lemma cell_at_fill cur vals j :
  length vals = length cur →
  cell_at (fill cur vals) j =
    match cell_at cur j with
    | Some v => Some v
    | None => cell_at vals j
    end.
Proof.
  intros Hlen. unfold cell_at, fill. rewrite lookup_zip_with.
  destruct (cur !! j) as [c|] eqn:Hc; simpl.
  - destruct (lookup_lt_is_Some_2 vals j) as [x ->].
    { rewrite Hlen. by eapply lookup_lt_Some. }
    simpl. by destruct c.
  - rewrite (lookup_ge_None_2 vals j); [done|].
    rewrite Hlen. by apply lookup_ge_None.
Qed.

Lemma upsert_keys k vals (acc : list (row V)) :
  (upsert k vals acc).*1 = if decide (k ∈ acc.*1) then acc.*1 else acc.*1 ++ [k].
Proof.
  induction acc as [|[k' cur] acc IH].
  - cbn. rewrite decide_False; [done|by intros ?%elem_of_nil].
  - cbn [upsert].
    destruct (decide (k = k')) as [->|Hne]; rewrite !fmap_cons; cbn [fst].
    + rewrite decide_True; [done|left].
    + rewrite IH. destruct (decide (k ∈ acc.*1)) as [Hin|Hnin].
      * rewrite decide_True; [done|by right].
      * rewrite decide_False; [done|]. by intros [?|?]%elem_of_cons.
Qed.

Lemma upsert_elem k vals (acc : list (row V)) v cur :
  NoDup (acc.*1) → (v, cur) ∈ upsert k vals acc →
  (v ≠ k ∧ (v, cur) ∈ acc)
  ∨ (v = k ∧ ((∃ c0, (k, c0) ∈ acc ∧ cur = fill c0 vals)
              ∨ (cur = vals ∧ k ∉ acc.*1))).
Proof.
  induction acc as [|[k' c'] acc IH]; simpl; intros Hnd Hin.
  - apply list_elem_of_singleton in Hin as [= -> ->]. right. split; [done|].
    right. split; [done|by intros ?%elem_of_nil].
  - apply NoDup_cons in Hnd as [Hk' Hnd].
    destruct (decide (k = k')) as [->|Hne].
    + apply elem_of_cons in Hin as [[= -> ->]|Hin].
      * right. split; [done|]. left. exists c'. split; [left|done].
      * left. split; [|by right]. intros ->. apply Hk'.
        apply list_elem_of_fmap. by exists (k', cur).
    + apply elem_of_cons in Hin as [[= -> ->]|Hin].
      * left. split; [done|left].
      * destruct (IH Hnd Hin) as [[? ?]|[-> [(c0 & ? & ->)|[-> Hnin]]]].
        -- left. split; [done|by right].
        -- right. split; [done|]. left. exists c0. split; [by right|done].
        -- right. split; [done|]. right. split; [done|].
           by intros [?|?]%elem_of_cons.
Qed.

Section Groups.
Context (k : row V → option V) (ps : list nat).

Lemma members_snoc v (rs : list (row V)) r :
  members k v (rs ++ [r]) =
    members k v rs ++ (if decide (k r = Some v) then [r] else []).
Proof.
  unfold members. by rewrite filter_app.
Qed.

Lemma built_step acc (rs : list (row V)) r :
  built k ps acc rs → built k ps (group_step k ps acc r) (rs ++ [r]).
Proof.
  intros (Hnd & Hkeys & Hvals). unfold group_step.
  destruct (k r) as [u|] eqn:Hu.
  - split_and!.
    + rewrite upsert_keys. destruct (decide (u ∈ acc.*1)); [done|].
      apply NoDup_app. split_and!; [done| |apply NoDup_singleton].
      by intros x ? ->%list_elem_of_singleton.
    + intros v. rewrite upsert_keys. split.
      * intros Hv.
        assert (v ∈ acc.*1 ∨ v = u) as [Hv'| ->].
        { destruct (decide (u ∈ acc.*1)); [by left|].
          apply elem_of_app in Hv as [?|?%list_elem_of_singleton]; auto. }
        -- apply Hkeys in Hv' as (r' & ? & ?). exists r'.
           split; [apply elem_of_app; by left|done].
        -- exists r. split; [apply elem_of_app; right; left|done].
      * intros (r' & [Hr'| ->%list_elem_of_singleton]%elem_of_app & Hk).
        -- assert (v ∈ acc.*1) by (apply Hkeys; eauto).
           destruct (decide (u ∈ acc.*1)); [done|apply elem_of_app; by left].
        -- assert (v = u) as -> by congruence.
           destruct (decide (u ∈ acc.*1)); [done|].
           apply elem_of_app. right. left.
    + intros v cur Hin.
      apply upsert_elem in Hin
        as [[Hne Hin]|[-> [(c0 & Hin & ->)|[-> Hnin]]]]; [| | |done].
      * destruct (Hvals v cur Hin) as [Hlen Hcells]. split; [done|].
        intros j. rewrite members_snoc, decide_False, app_nil_r by congruence.
        apply Hcells.
      * destruct (Hvals u c0 Hin) as [Hlen Hcells].
        assert (length (pick ps r.2) = length c0) as Hpick.
        { unfold pick. by rewrite length_fmap. }
        split; [by rewrite length_fill|].
        intros j. rewrite members_snoc, decide_True by done.
        rewrite fmap_app.
        change ((fun r0 : row V => cell_at (pick ps r0.2) j) <$> [r])
          with [cell_at (pick ps r.2) j].
        rewrite first_valid_snoc, <-Hcells. by apply cell_at_fill.
      * split; [unfold pick; by rewrite length_fmap|].
        intros j. rewrite members_snoc, decide_True by done.
        assert (members k u rs = []) as ->.
        { apply elem_of_nil_inv. intros x [Hx ?]%list_elem_of_filter.
          apply Hnin, Hkeys. eauto. }
        simpl. by destruct (cell_at (pick ps r.2) j).
  - split_and!; [done| |].
    + intros v. rewrite Hkeys. split.
      * intros (r' & ? & ?). exists r'. split; [apply elem_of_app; by left|done].
      * intros (r' & [?| ->%list_elem_of_singleton]%elem_of_app & Hk);
          [eauto|congruence].
    + intros v cur Hin. destruct (Hvals v cur Hin) as [Hlen Hcells].
      split; [done|]. intros j.
      rewrite members_snoc, decide_False, app_nil_r by congruence.
      apply Hcells.
Qed.

Lemma built_fold (rs : list (row V)) :
  built k ps (foldl (group_step k ps) [] rs) rs.
Proof.
  induction rs as [|r rs IH] using rev_ind.
  - split_and!; [constructor| |by intros ?? ?%elem_of_nil].
    intros v. split; [by intros ?%elem_of_nil|by intros (? & ?%elem_of_nil & _)].
  - rewrite foldl_snoc. by apply built_step.
Qed.
End Groups.

Lemma insert_row_perm r (l : list (row V)) : insert_row leb r l ≡ₚ r :: l.
Proof.
  induction l as [|r' l IH]; simpl; [done|].
  destruct (leb r.1 r'.1); [done|]. by rewrite IH, Permutation_swap.
Qed.

Lemma sort_rows_perm (l : list (row V)) : sort_rows leb l ≡ₚ l.
Proof.
  induction l as [|r l IH]; simpl; [done|]. by rewrite insert_row_perm, IH.
Qed.

Lemma locate_each_spec names cols ps :
  locate_each names cols = Some ps →
  Forall2 (fun c p => positions c cols 0 = [p]) names ps.
Proof.
  revert ps. induction names as [|c names IH]; intros ps; simpl.
  - intros [= <-]. constructor.
  - destruct (positions c cols 0) as [|p [|??]] eqn:Hp; try done.
    destruct (locate_each names cols) as [qs|]; [|done].
    intros [= <-]. constructor; [done|by apply IH].
Qed.

Lemma rows_by_key (F : V → list (option V)) (l : list (row V)) :
  (∀ r, r ∈ l → r.2 = F r.1) → l = (fun v => (v, F v)) <$> l.*1.
Proof.
  induction l as [|[v cur] l IH]; intros H; simpl; [done|]. f_equal.
  - f_equal. apply (H (v, cur)). left.
  - apply IH. intros r Hr. apply H. by right.
Qed.

(** Grouping by subject: one row per subject met, holding for each
    aggregated column the first value present among the subject's samples. *)
Lemma groupby_first_spec f aggs g :
  groupby_first leb f "host_subject_id" aggs = Some g →
  index_name g = Some "host_subject_id"
  ∧ columns g = aggs
  ∧ ∃ keys,
      NoDup keys
      ∧ (∀ v, v ∈ keys ↔ ∃ r, r ∈ rows f ∧ subject f r = Some v)
      ∧ rows g =
          (fun v => (v, (fun c => first_valid (value f c <$> samples f v))
                          <$> aggs)) <$> keys.
Proof.
  unfold groupby_first, samples, subject.
  destruct (key_of f "host_subject_id") as [k|]; [|done].
  destruct (locate_each aggs (columns f)) as [ps|] eqn:Hps; [|done].
  destruct (mem "host_subject_id" aggs); [done|]. intros [= <-]. simpl.
  split_and!; [done..|].
  set (G := foldl (group_step k ps) [] (rows f)).
  destruct (built_fold k ps (rows f)) as (Hnd & Hkeys & Hvals). fold G in Hnd, Hkeys, Hvals.
  pose proof (sort_rows_perm G) as Hperm.
  apply locate_each_spec in Hps.
  exists ((sort_rows leb G).*1). split_and!.
  - by rewrite Hperm.
  - intros v. by rewrite Hperm.
  - apply rows_by_key. intros [v cur] Hr. simpl.
    rewrite Hperm in Hr. destruct (Hvals v cur Hr) as [Hlen Hcells].
    apply list_eq. intros j. rewrite list_lookup_fmap.
    destruct (aggs !! j) as [c|] eqn:Hc; simpl.
    + destruct (Forall2_lookup_l _ _ _ _ _ Hps Hc) as (p & Hp & Hpos).
      destruct (lookup_lt_is_Some_2 cur j) as [x Hx].
      { rewrite Hlen. by eapply lookup_lt_Some. }
      rewrite Hx. f_equal.
      assert (cell_at cur j = x) as <- by (unfold cell_at; by rewrite Hx).
      rewrite Hcells. f_equal. apply list_fmap_ext. intros _ r _.
      unfold value. rewrite Hpos.
      unfold cell_at at 1. by rewrite (cell_at_pick _ _ _ _ Hp).
    + apply lookup_ge_None. rewrite Hlen, <-(Forall2_length _ _ _ Hps).
      by apply lookup_ge_None.
Qed.

(** What the subject cell leaves and writes, for any parameters and any
    files. *)
Lemma subject_cell_spec t (fs : gmap string (frame V)) mf shown fs' :
  subject_cell leb str t fs = Some ((mf, shown), fs') →
  fs' = <[subject_tsv t := mf]> fs
  ∧ index_name mf = Some "#SampleID"
  ∧ columns mf = subject_columns t
  ∧ ∃ m keys,
      fs !! metadata_tsv t = Some m
      ∧ NoDup keys
      ∧ (∀ v, v ∈ keys ↔ ∃ r, r ∈ rows m ∧ subject m r = Some v)
      ∧ rows mf =
          (fun v => (subject_label str t v,
                      (fun c => first_valid (value m c <$> samples m v))
                        <$> subject_columns t)) <$> keys.
Proof.
  unfold subject_cell, bind.
  destruct (read_csv (metadata_tsv t) fs) as [[m fs1]|] eqn:H1; [|done].
  apply read_csv_spec in H1 as (-> & Hm & _).
  destruct (lift (groupby_first leb m "host_subject_id" (subject_columns t)) fs)
    as [[g fs2]|] eqn:H2; [|done].
  apply lift_spec in H2 as (H2 & ->).
  apply groupby_first_spec in H2 as (_ & Hcols & keys & Hnd & Hkeys & Hrows).
  unfold to_csv, ret, subject_label. intros [= <- _ <-].
  split_and!; [done|by destruct (subject_index_as_str t)
              |by destruct (subject_index_as_str t)|].
  exists m, keys. split_and!; [done..|].
  destruct (subject_index_as_str t); simpl; rewrite Hrows; [|done].
  by rewrite <-list_fmap_compose.
Qed.
End FrameFacts.

(** The cells of the notebooks are the two cells modelled: after its imports,
    each subject cell has the statements of [subject_source], and each merge
    cell those of [merge_source], at the parameters of its tutorial. *)
Lemma table_cells_source :
  Forall (fun '(nb, i, j, t) =>
            body <$> nb !! i = Some (subject_source t)
            ∧ source_of <$> nb !! j = Some (merge_source t)) table_cells.
Proof. repeat constructor. Qed.

(** They are the only cells that write a table, and the command-line notebook
    writes none. *)
Lemma table_cells_complete :
  Forall (fun '(nb, i, j, t) =>
            table_writes nb = [(i, subject_tsv t); (j, merged_tsv t)])
    table_cells
  ∧ table_writes phylo_rpca = [].
Proof. split; [repeat constructor|reflexivity]. Qed.

(** ** C9 *)

(** C9: the merge cell does not always write four columns.  When the sample
    metadata file has a column of its own named [Current_Natural_Log_Ratio],
    the concatenation has two columns of that name, the selection keeps
    both, and the table written has five columns, two of one name.  The line
    that the cell comments [# ensure no duplicate columns] drops rows, not
    columns. *)
Lemma merged_table_five_columns :
  merge_cell id ibd_tutorial example_files_with_ratio =
    Some ((example_merged_with_ratio, head 2 example_merged_with_ratio),
          <[merged_tsv ibd_tutorial := example_merged_with_ratio]>
            example_files_with_ratio)
  ∧ columns example_merged_with_ratio ≠ merged_columns ibd_tutorial
  ∧ length (columns example_merged_with_ratio) = 5%nat.
Proof. split_and!; [vm_compute; reflexivity|done|done]. Qed.

(** X18: in the merge cell of every notebook that has one (the cell at
    index [j], the only one that writes [merged_sample_plot_data.tsv]), the
    table written is the table the cell leaves in [log_ratio_metdata]; its
    index is named [#SampleID]; no row of it misses a value in a column
    named like the log-ratio, the rows that did having been dropped before
    the selection; and its columns are the state column, [host_subject_id],
    the group column and the log-ratio column, in that order, provided the
    sample metadata file has no column of its own named like the
    log-ratio. *)
Theorem merged_table_written {V : Type} `{!EqDecision V} (str : V → V)
    nb i j t (fs : gmap string (frame V)) mf shown fs' :
  (nb, i, j, t) ∈ table_cells →
  merge_cell str t fs = Some ((mf, shown), fs') →
  source_of <$> nb !! j = Some (merge_source t)
  ∧ (j, merged_tsv t) ∈ table_writes nb
  ∧ fs' !! merged_tsv t = Some mf
  ∧ index_name mf = Some "#SampleID"
  ∧ (∀ r q, r ∈ rows mf → columns mf !! q = Some (ratio_column t) →
       ∃ v, r.2 !! q = Some (Some v))
  ∧ ((∀ m, fs !! metadata_tsv t = Some m → ratio_column t ∉ columns m) →
     columns mf = merged_columns t).
Proof.
  intros Hcell Hrun.
  apply merge_cell_spec in Hrun as (-> & Hname & Hcols & Hrows).
  split_and!; [| |by rewrite lookup_insert_eq|done..].
  - pose proof table_cells_source as Hsrc. rewrite Forall_forall in Hsrc.
    by destruct (Hsrc _ Hcell) as [_ ?].
  - destruct table_cells_complete as [Hall _]. rewrite Forall_forall in Hall.
    rewrite (Hall _ Hcell). in_list.
Qed.

Lemma merged_table_written_witness :
  (<[merged_tsv ibd_tutorial := example_merged]> example_files)
    !! merged_tsv ibd_tutorial = Some example_merged
  ∧ columns example_merged = merged_columns ibd_tutorial.
Proof.
  assert (merge_cell id ibd_tutorial example_files =
            Some ((example_merged, head 2 example_merged),
                  <[merged_tsv ibd_tutorial := example_merged]> example_files))
    as Hrun by (vm_compute; reflexivity).
  assert ((ibd, 14%nat, 20%nat, ibd_tutorial) ∈ table_cells) as Hcell
    by (unfold table_cells; in_list).
  destruct (merged_table_written id _ _ _ _ _ _ _ _ Hcell Hrun)
    as (_ & _ & Hw & _ & _ & Hcols).
  split; [exact Hw|]. apply Hcols.
  intros m Hm. vm_compute in Hm. injection Hm as <-. vm_compute.
  intros H. repeat (apply elem_of_cons in H as [H|H]; [discriminate H|]).
  by apply elem_of_nil in H.
Defined.

(** ** C10 *)

(** C10, as stated, fails: the first sample of subject [s2] has no diagnosis,
    and the row of [s2] holds the diagnosis of its second sample; ['first']
    takes the first value that is present. *)
Lemma first_skips_missing_values :
  subject_cell String.leb id ibd_tutorial example_files =
    Some ((example_subjects, head 5 example_subjects),
          <[subject_tsv ibd_tutorial := example_subjects]> example_files)
  ∧ samples example_metadata "s2" !! 0%nat
    = Some ("a1", [Some "1"; Some "s2"; None; Some "quiescent"])
  ∧ value example_metadata "ibd"
      ("a1", [Some "1"; Some "s2"; None; Some "quiescent"]) = None
  ∧ ("s2", [Some "Crohns"; Some "quiescent"]) ∈ rows example_subjects
  ∧ value example_subjects "ibd" ("s2", [Some "Crohns"; Some "quiescent"])
    = Some "Crohns".
Proof.
  split_and!; [vm_compute; reflexivity|reflexivity|reflexivity| |reflexivity].
  unfold example_subjects; simpl. in_list.
Qed.

(** C10, amended: in every notebook that has a subject cell (the cell at
    index [i]), the table the cell leaves in [mf] is the one it writes to
    [subject-metadata.tsv] and the one a later cell passes to the ordination
    plot of the subject biplot; its index is named [#SampleID]; it has
    exactly one row per distinct value of [host_subject_id] in the sample
    metadata (samples without a subject aside), and in that row each retained
    column holds the first value that is present among the subject's samples,
    in file order, or nothing when none is. *)
Theorem subject_table_written {V : Type} `{!EqDecision V}
    (leb : V → V → bool) (str : V → V)
    nb i j t (fs : gmap string (frame V)) mf shown fs' :
  (nb, i, j, t) ∈ table_cells →
  subject_cell leb str t fs = Some ((mf, shown), fs') →
  body <$> nb !! i = Some (subject_source t)
  ∧ (i, subject_tsv t) ∈ table_writes nb
  ∧ (∃ c plot, plot ∈ ordination_plots ∧ (i < c)%nat
               ∧ Link i None "mf" [] c plot [] ∈ links nb)
  ∧ fs' !! subject_tsv t = Some mf
  ∧ index_name mf = Some "#SampleID"
  ∧ columns mf = subject_columns t
  ∧ ∃ m keys,
      fs !! metadata_tsv t = Some m
      ∧ NoDup keys
      ∧ (∀ v, v ∈ keys ↔ ∃ r, r ∈ rows m ∧ subject m r = Some v)
      ∧ rows mf =
          (fun v => (subject_label str t v,
                      (fun c => first_valid (value m c <$> samples m v))
                        <$> subject_columns t)) <$> keys.
Proof.
  intros Hcell Hrun.
  apply subject_cell_spec in Hrun as (-> & Hname & Hcols & Hrows).
  split_and!; [| | |by rewrite lookup_insert_eq|done..].
  - pose proof table_cells_source as Hsrc. rewrite Forall_forall in Hsrc.
    by destruct (Hsrc _ Hcell) as [? _].
  - destruct table_cells_complete as [Hall _]. rewrite Forall_forall in Hall.
    rewrite (Hall _ Hcell). in_list.
  - clear Hrows Hcols Hname. unfold table_cells in Hcell.
    repeat (apply elem_of_cons in Hcell as [[= -> -> _ _]|Hcell]);
      [..|by apply elem_of_nil in Hcell].
    + exists 16%nat, (plugin_action "emperor" "actions" "biplot").
      split_and!; compute_done.
    + exists 10%nat, (plugin_action "empress" "actions" "community_plot").
      split_and!; compute_done.
    + exists 7%nat, (plugin_action "emperor" "visualizers" "biplot").
      split_and!; compute_done.
Qed.

Lemma subject_table_written_witness :
  (<[subject_tsv ibd_tutorial := example_subjects]> example_files)
    !! subject_tsv ibd_tutorial = Some example_subjects
  ∧ index_name example_subjects = Some "#SampleID".
Proof.
  assert (subject_cell String.leb id ibd_tutorial example_files =
            Some ((example_subjects, head 5 example_subjects),
                  <[subject_tsv ibd_tutorial := example_subjects]> example_files))
    as Hrun by (vm_compute; reflexivity).
  assert ((ibd, 14%nat, 20%nat, ibd_tutorial) ∈ table_cells) as Hcell
    by (unfold table_cells; in_list).
  destruct (subject_table_written String.leb id _ _ _ _ _ _ _ _ Hcell Hrun)
    as (_ & _ & _ & Hw & Hname & _).
  split; [exact Hw|exact Hname].
Defined.

(** * Tables: when the cells run and what they compute *)

(** The two table cells on the small example files. *)
Lemma example_subject_run :
  subject_cell String.leb id ibd_tutorial example_files =
    Some ((example_subjects, head 5 example_subjects),
          <[subject_tsv ibd_tutorial := example_subjects]> example_files).
Proof. vm_compute. reflexivity. Qed.

Lemma example_merge_run :
  merge_cell id ibd_tutorial example_files =
    Some ((example_merged, head 2 example_merged),
          <[merged_tsv ibd_tutorial := example_merged]> example_files).
Proof. vm_compute. reflexivity. Qed.

Section CellFacts.
Context {V : Type} `{!EqDecision V}.
Context (leb : V → V → bool) (str : V → V).
Implicit Types (f m ex : frame V) (r : row V) (cols names : list string).
Implicit Types (fs : gmap string (frame V)) (t : tutorial).

Lemma subject_cell_eq t fs :
  subject_cell leb str t fs =
    match fs !! metadata_tsv t with
    | Some m =>
        if decide (parsed m) then
          match subject_table leb str t m with
          | Some mf => Some ((mf, head 5 mf), <[subject_tsv t := mf]> fs)
          | None => None
          end
        else None
    | None => None
    end.
Proof.
  unfold subject_cell, bind, read_csv, lift, to_csv, ret, subject_table.
  destruct (fs !! metadata_tsv t) as [m|]; [|done].
  destruct (decide (parsed m)); [|done].
  by destruct (groupby_first leb m "host_subject_id" (subject_columns t)).
Qed.

Lemma merge_cell_eq t fs :
  merge_cell str t fs =
    match fs !! metadata_tsv t, fs !! export_tsv t with
    | Some m, Some ex =>
        if decide (parsed m ∧ parsed ex) then
          match merged_table str t m ex with
          | Some mf => Some ((mf, head 2 mf), <[merged_tsv t := mf]> fs)
          | None => None
          end
        else None
    | _, _ => None
    end.
Proof.
  unfold merge_cell, bind, read_csv, lift, to_csv, ret, merged_table.
  destruct (fs !! metadata_tsv t) as [m|]; [|done].
  destruct (decide (parsed m)) as [Hm|Hm].
  - destruct (fs !! export_tsv t) as [ex|]; [|done].
    destruct (decide (parsed ex)) as [Hex|Hex].
    + rewrite decide_True by done.
      destruct (getitem ex [ratio_column t]) as [two|]; [|done].
      destruct (concat_columns two m) as [cat|]; [|done].
      destruct (dropna cat [ratio_column t]) as [kept|]; [|done].
      by destruct (getitem (index_astype_str str kept) (merged_columns t)).
    + rewrite decide_False by (by intros [_ ?]). done.
  - destruct (fs !! export_tsv t) as [ex|]; [|done].
    rewrite decide_False by (by intros [? _]). done.
Qed.

(** A selection by name succeeds exactly when every name labels a column. *)
Lemma positions_in c cols i : c ∈ cols → positions c cols i ≠ [].
Proof.
  intros (q & Hq)%list_elem_of_lookup_1 Hnil.
  assert ((i + q)%nat ∈ positions c cols i) as Hin
    by (apply positions_spec; by exists q).
  rewrite Hnil in Hin. by apply elem_of_nil in Hin.
Qed.


Lemma positions_single c cols :
  NoDup cols → c ∈ cols → ∃ p, positions c cols 0 = [p] ∧ cols !! p = Some c.
Proof.
  intros Hnd Hc.
  destruct (positions c cols 0) as [|p ps] eqn:Hp; [by apply positions_in in Hp|].
  destruct (positions_NoDup _ _ _ _ _ Hnd Hp) as (-> & q & -> & Hq).
  by exists q.
Qed.

Lemma locate_each_is_Some names cols :
  NoDup cols →
  is_Some (locate_each names cols) ↔ Forall (fun c => c ∈ cols) names.
Proof.
  intros Hnd. induction names as [|c names IH]; simpl.
  - split; [constructor|eauto].
  - rewrite Forall_cons, <-IH. split.
    + destruct (positions c cols 0) as [|p [|??]] eqn:Hp; try by intros [? [=]].
      destruct (locate_each names cols) as [qs|]; [|by intros [? [=]]].
      intros _. split; [|eauto].
      destruct (decide (c ∈ cols)) as [|Hc]; [done|].
      by rewrite (positions_absent _ _ _ Hc) in Hp.
    + intros [Hc [qs ->]].
      destruct (positions_single _ _ Hnd Hc) as (p & -> & _). eauto.
Qed.

Lemma mem_spec x (l : list string) : mem x l = true ↔ x ∈ l.
Proof.
  unfold mem. rewrite existsb_exists. split.
  - intros (y & Hy & ->%String.eqb_eq). by apply list_elem_of_In.
  - intros Hx. exists x. split; [by apply list_elem_of_In|apply String.eqb_refl].
Qed.

Lemma key_of_is_Some f key :
  NoDup (columns f) →
  is_Some (key_of f key) ↔ (key ∈ columns f ↔ index_name f ≠ Some key).
Proof.
  intros Hnd. unfold key_of.
  destruct (decide (key ∈ columns f)) as [Hk|Hk].
  - destruct (positions_single _ _ Hnd Hk) as (p & -> & _).
    destruct (bool_decide_reflect (index_name f = Some key)) as [Hi|Hi].
    + split; [by intros [? [=]]|]. intros H. by apply H in Hk.
    + split; [done|eauto].
  - rewrite (positions_absent _ _ _ Hk).
    destruct (bool_decide_reflect (index_name f = Some key)) as [Hi|Hi].
    + split; [|eauto]. intros _. split; [done|]. by intros [].
    + split; [by intros [? [=]]|]. intros H. by apply H in Hi.
Qed.

Lemma groupby_first_is_Some f key aggs :
  NoDup (columns f) →
  is_Some (groupby_first leb f key aggs) ↔
    (key ∈ columns f ↔ index_name f ≠ Some key)
    ∧ Forall (fun c => c ∈ columns f) aggs
    ∧ key ∉ aggs.
Proof.
  intros Hnd. rewrite <-(key_of_is_Some _ _ Hnd), <-(locate_each_is_Some _ _ Hnd).
  unfold groupby_first.
  destruct (key_of f key) as [k|]; [|split; [by intros [? [=]]|by intros [[? [=]] _]]].
  destruct (locate_each aggs (columns f)) as [ps|];
    [|split; [by intros [? [=]]|by intros (_ & [? [=]] & _)]].
  destruct (mem key aggs) eqn:Hmem.
  - apply mem_spec in Hmem. split; [by intros [? [=]]|by intros (_ & _ & ?)].
  - split; [|eauto]. intros _. split_and!; [eauto..|].
    intros ?%mem_spec. congruence.
Qed.

Lemma subject_table_is_Some t m :
  NoDup (columns m) →
  is_Some (subject_table leb str t m) ↔
    ("host_subject_id" ∈ columns m ↔ index_name m ≠ Some "host_subject_id")
    ∧ Forall (fun c => c ∈ columns m) (subject_columns t)
    ∧ "host_subject_id" ∉ subject_columns t.
Proof.
  intros Hnd. rewrite <-(groupby_first_is_Some _ _ _ Hnd). unfold subject_table.
  destruct (groupby_first leb m "host_subject_id" (subject_columns t));
    split; eauto; by intros [? [=]].
Qed.




(** *** The merged table, row by row *)
















(** *** Order of the groups *)

Lemma insert_row_sorted r (l : list (row V)) :
  (∀ a b, leb a b = true ∨ leb b a = true) →
  Sorted (fun a b => leb a b = true) (l.*1) →
  Sorted (fun a b => leb a b = true) ((insert_row leb r l).*1).
Proof.
  intros Htot. induction l as [|r' l IH]; intros Hs; simpl.
  - repeat constructor.
  - rewrite fmap_cons in Hs. apply Sorted_inv in Hs as [Hs Hhd].
    destruct (leb r.1 r'.1) eqn:Hle.
    + rewrite !fmap_cons. constructor; [by constructor|by constructor].
    + rewrite fmap_cons. constructor; [by apply IH|].
      destruct l as [|r'' l]; simpl.
      * constructor. destruct (Htot r.1 r'.1); [congruence|done].
      * destruct (leb r.1 r''.1); rewrite fmap_cons; constructor.
        -- destruct (Htot r.1 r'.1); [congruence|done].
        -- rewrite fmap_cons in Hhd. by apply HdRel_inv in Hhd.
Qed.

Lemma sort_rows_sorted (l : list (row V)) :
  (∀ a b, leb a b = true ∨ leb b a = true) →
  Sorted (fun a b => leb a b = true) ((sort_rows leb l).*1).
Proof.
  intros Htot. induction l as [|r l IH]; simpl; [constructor|].
  by apply insert_row_sorted.
Qed.

Lemma groupby_first_sorted f key aggs g :
  (∀ a b, leb a b = true ∨ leb b a = true) →
  groupby_first leb f key aggs = Some g →
  Sorted (fun a b => leb a b = true) (labels g).
Proof.
  intros Htot. unfold groupby_first.
  destruct (key_of f key) as [k|]; [|done].
  destruct (locate_each aggs (columns f)) as [ps|]; [|done].
  destruct (mem key aggs); [done|]. intros [= <-].
  by apply sort_rows_sorted.
Qed.

(** *** Well-formed tables *)






(** *** Values once in the subject table stay *)

Lemma first_valid_app (l l' : list (option V)) :
  first_valid (l ++ l') =
    match first_valid l with
    | Some v => Some v
    | None => first_valid l'
    end.
Proof. induction l as [|[v|] l IH]; simpl; [done..|]. by destruct (first_valid l'). Qed.

Lemma subject_table_rows t (m mf : frame V) :
  subject_table leb str t m = Some mf →
  ∃ keys,
    NoDup keys
    ∧ (∀ v, v ∈ keys ↔ ∃ r, r ∈ rows m ∧ subject m r = Some v)
    ∧ rows mf =
        (fun v => (subject_label str t v,
                    (fun c => first_valid (value m c <$> samples m v))
                      <$> subject_columns t)) <$> keys.
Proof.
  unfold subject_table.
  destruct (groupby_first leb m "host_subject_id" (subject_columns t))
    as [g|] eqn:Hg; [|done].
  apply groupby_first_spec in Hg as (_ & _ & keys & Hnd & Hkeys & Hrows).
  intros [= <-]. exists keys. split_and!; [done..|]. unfold subject_label.
  destruct (subject_index_as_str t); simpl; rewrite Hrows; [|done].
  by rewrite <-list_fmap_compose.
Qed.

Lemma subject_table_stable t (m m' mf mf' : frame V) more :
  index_name m' = index_name m → columns m' = columns m →
  rows m' = rows m ++ more →
  subject_table leb str t m = Some mf →
  subject_table leb str t m' = Some mf' →
  ∀ r, r ∈ rows mf →
    ∃ r', r' ∈ rows mf' ∧ r'.1 = r.1
          ∧ Forall2 (fun a b => a = None ∨ b = a) r.2 r'.2.
Proof.
  intros Hi Hc Hr Hmf Hmf'.
  apply subject_table_rows in Hmf as (keys & _ & Hkeys & ->).
  apply subject_table_rows in Hmf' as (keys' & _ & Hkeys' & ->).
  assert (∀ r, subject m' r = subject m r) as Hsub.
  { intros r. unfold subject, key_of. by rewrite Hc, Hi. }
  assert (∀ c r, value m' c r = value m c r) as Hval.
  { intros c r. unfold value. by rewrite Hc. }
  intros r (v & -> & Hv)%list_elem_of_fmap.
  eexists. split_and!.
  - apply list_elem_of_fmap. exists v. split; [reflexivity|].
    apply Hkeys'. apply Hkeys in Hv as (r0 & Hr0 & Hs0). exists r0.
    rewrite Hr, Hsub. split; [apply elem_of_app; by left|done].
  - done.
  - simpl. apply Forall2_fmap, Forall_Forall2_diag, Forall_forall.
    intros c _.
    assert (samples m' v = samples m v ++ members (subject m) v more) as ->.
    { unfold samples, members. rewrite Hr, filter_app.
      f_equal; apply list_filter_iff; intros r0; by rewrite Hsub. }
    rewrite fmap_app, first_valid_app.
    rewrite (list_fmap_ext (value m' c) (value m c) (samples m v))
      by (intros; apply Hval).
    destruct (first_valid (value m c <$> samples m v)); auto.
Qed.

(** *** Columns and labels of the tables the cells leave *)







End CellFacts.

(** ** The table cells of the notebooks *)

Lemma table_cells_tutorials nb i j t :
  (nb, i, j, t) ∈ table_cells → t = ibd_tutorial ∨ t = tempted_tutorial.
Proof.
  unfold table_cells. intros H.
  repeat (apply elem_of_cons in H as [Ht|H]; [injection Ht as _ _ _ ->; auto|]).
  by apply elem_of_nil in H.
Qed.

Lemma table_cells_paths nb i j t :
  (nb, i, j, t) ∈ table_cells →
  subject_tsv t ≠ metadata_tsv t ∧ subject_tsv t ≠ export_tsv t
  ∧ merged_tsv t ≠ metadata_tsv t ∧ merged_tsv t ≠ export_tsv t
  ∧ subject_tsv t ≠ merged_tsv t.
Proof. by intros [-> | ->]%table_cells_tutorials. Qed.

Lemma table_cells_columns nb i j t :
  (nb, i, j, t) ∈ table_cells →
  (ratio_column t ∉ [state_column t; "host_subject_id"; group_column t])
  ∧ NoDup (subject_columns t) ∧ NoDup (merged_columns t)
  ∧ "host_subject_id" ∉ subject_columns t.
Proof.
  intros [-> | ->]%table_cells_tutorials; split_and!; compute_done.
Qed.

(** ** C6 *)





(** The chain needs the merged table: were the last cell of the IBD notebook
    to pass the sample metadata as read, [metadata_one], to
    [linear_mixed_effects], no table computed from the selected log-ratio
    would reach that call, and the notebook would not be chained. *)
Lemma unmerged_metadata_is_not_chained :
  ¬ chained
      (<[24%nat :=
           Code
             [SAssign (EName "lme_plot")
                (ECall (EName "linear_mixed_effects")
                   [ECall (EAttr (EName "q2") "Metadata")
                      [EName "metadata_one"] [];
                    EStr "timepoint"]
                   [("individual_id_column", EStr "host_subject_id");
                    ("group_columns", EStr "ibd");
                    ("metric", EStr "Current_Natural_Log_Ratio")])] []]> ibd).
Proof.
  intros (a & b & r & t & col & plot & i & j & k & m & n & pj & pk & pn & d
          & _ & _ & _ & _ & _ & _ & _ & Hflow & _).
  revert Hflow.
  match goal with
  | |- ?x ∈ export_flows ?nb → _ =>
      assert (Forall (fun f : nat * list string * string * nat * string =>
                        f.1.1.1.2 ≠ plugin_action "longitudinal" "actions"
                                      "linear_mixed_effects")
                (export_flows nb)) as Hall by compute_done
  end.
  intros Hflow. rewrite Forall_forall in Hall. by apply (Hall _ Hflow).
Qed.




(** * Further properties of the cells *)

(** X1: on a sample metadata table as [read_csv] returns it (the name of
    its index is none of its column names), the subject cell of a notebook
    runs to its end exactly when the file is there, [host_subject_id] names
    one of its columns or its index, and it has every column the cell
    aggregates; otherwise the cell stops with an exception. *)
Theorem subject_cell_runs {V : Type} `{!EqDecision V}
    (leb : V → V → bool) (str : V → V) nb i j t (fs : gmap string (frame V)) :
  (nb, i, j, t) ∈ table_cells →
  (∀ m, fs !! metadata_tsv t = Some m → distinct_header m) →
  is_Some (subject_cell leb str t fs) ↔
    ∃ m, fs !! metadata_tsv t = Some m ∧ parsed m
         ∧ ("host_subject_id" ∈ columns m
            ∨ index_name m = Some "host_subject_id")
         ∧ Forall (fun c => c ∈ columns m) (subject_columns t).
Proof.
  intros (_ & _ & _ & Hkey)%table_cells_columns Hhead. rewrite subject_cell_eq.
  destruct (fs !! metadata_tsv t) as [m|];
    [|split; [by intros [? [=]]|by intros (? & [=] & _)]].
  specialize (Hhead m eq_refl).
  assert (("host_subject_id" ∈ columns m
           ↔ index_name m ≠ Some "host_subject_id")
          ↔ ("host_subject_id" ∈ columns m
             ∨ index_name m = Some "host_subject_id")) as Hxor.
  { destruct (decide (index_name m = Some "host_subject_id")) as [Hi|Hi].
    - specialize (Hhead _ Hi). split; [by right|]. intros _. by split.
    - split; [intros H; left; by apply H|]. intros [?|?]; [by split|done]. }
  destruct (decide (parsed m)) as [Hm|Hm].
  2:{ split; [by intros [? [=]]|]. by intros (? & [= <-] & ? & _). }
  pose proof (subject_table_is_Some leb str t m (proj1 Hm)) as Hiff.
  rewrite Hxor in Hiff.
  destruct (subject_table leb str t m) as [mf|].
  - split; [|eauto]. intros _. exists m.
    destruct (proj1 Hiff) as (? & ? & _); eauto.
  - split; [by intros [? [=]]|]. intros (? & [= <-] & _ & ? & ?).
    destruct (proj2 Hiff) as [? [=]]. done.
Qed.

Lemma subject_cell_runs_witness :
  is_Some (subject_cell String.leb id ibd_tutorial example_files).
Proof.
  apply (subject_cell_runs String.leb id ibd 14%nat 20%nat ibd_tutorial).
  - unfold table_cells. in_list.
  - intros m Hm. vm_compute in Hm. injection Hm as <-.
    intros c Hc. injection Hc as <-. vm_compute. intros H.
    repeat (apply elem_of_cons in H as [H|H]; [discriminate H|]).
    by apply elem_of_nil in H.
  - exists example_metadata. split_and!.
    + vm_compute. reflexivity.
    + compute_done.
    + left. vm_compute. in_list.
    + vm_compute. repeat constructor; in_list.
Defined.





(** X4: the subject table lists the subjects in ascending order of
    [host_subject_id], whatever the order of the samples in the file (in the
    TEMPTED notebook the labels are then turned into strings, which keeps the
    rows where they are). *)
Theorem subject_rows_sorted {V : Type} `{!EqDecision V}
    (leb : V → V → bool) (str : V → V)
    t (fs : gmap string (frame V)) mf shown fs' :
  (∀ a b, leb a b = true ∨ leb b a = true) →
  subject_cell leb str t fs = Some ((mf, shown), fs') →
  ∃ m keys,
    fs !! metadata_tsv t = Some m
    ∧ labels mf = subject_label str t <$> keys
    ∧ Sorted (fun a b => leb a b = true) keys
    ∧ NoDup keys
    ∧ (∀ v, v ∈ keys ↔ ∃ r, r ∈ rows m ∧ subject m r = Some v).
Proof.
  intros Htot Hrun. rewrite subject_cell_eq in Hrun.
  destruct (fs !! metadata_tsv t) as [m|]; [|done].
  destruct (decide (parsed m)); [|done].
  unfold subject_table in Hrun.
  destruct (groupby_first leb m "host_subject_id" (subject_columns t))
    as [g|] eqn:Hg; [|done].
  injection Hrun as <- _ _.
  pose proof (groupby_first_sorted leb _ _ _ _ Htot Hg) as Hsorted.
  apply groupby_first_spec in Hg as (_ & _ & keys & Hnd & Hkeys & Hrows).
  assert (labels g = keys) as Hl.
  { unfold labels. rewrite Hrows, <-list_fmap_compose. apply list_fmap_id. }
  exists m, keys. rewrite <-Hl at 1 2. split_and!; [done| |done..].
  unfold subject_label, labels.
  destruct (subject_index_as_str t); simpl.
  - by rewrite <-!list_fmap_compose.
  - by rewrite list_fmap_id.
Qed.

Lemma subject_rows_sorted_witness :
  ∃ keys, labels example_subjects = keys
          ∧ Sorted (fun a b => String.leb a b = true) keys.
Proof.
  destruct (subject_rows_sorted String.leb id _ _ _ _ _ String.leb_total
              example_subject_run)
    as (m & keys & _ & Hl & Hs & _).
  exists keys. split; [|exact Hs].
  rewrite Hl. unfold subject_label. simpl. by rewrite list_fmap_id.
Defined.

(** X5: running a table cell again changes nothing: from the files it has
    left, the subject cell (and likewise the merge cell) computes the same
    table and leaves the same files. *)
Theorem table_cells_rerun {V : Type} `{!EqDecision V}
    (leb : V → V → bool) (str : V → V)
    nb i j t (fs fs' : gmap string (frame V)) res :
  (nb, i, j, t) ∈ table_cells →
  (subject_cell leb str t fs = Some (res, fs') →
   subject_cell leb str t fs' = Some (res, fs'))
  ∧ (merge_cell str t fs = Some (res, fs') →
     merge_cell str t fs' = Some (res, fs')).
Proof.
  intros (Hsm & Hse & Hmm & Hme & _)%table_cells_paths. split.
  - rewrite !subject_cell_eq.
    destruct (fs !! metadata_tsv t) as [m|] eqn:Hm; [|done].
    destruct (decide (parsed m)); [|done].
    destruct (subject_table leb str t m) as [mf|] eqn:Hmf; [|done].
    intros [= <- <-]. rewrite lookup_insert_ne, Hm by done.
    rewrite decide_True, Hmf by done. by rewrite insert_insert_eq.
  - rewrite !merge_cell_eq.
    destruct (fs !! metadata_tsv t) as [m|] eqn:Hm; [|done].
    destruct (fs !! export_tsv t) as [ex|] eqn:Hex; [|done].
    destruct (decide (parsed m ∧ parsed ex)); [|done].
    destruct (merged_table str t m ex) as [mf|] eqn:Hmf; [|done].
    intros [= <- <-]. rewrite !lookup_insert_ne, Hm, Hex by done.
    rewrite decide_True, Hmf by done. by rewrite insert_insert_eq.
Qed.

Lemma table_cells_rerun_witness :
  merge_cell id ibd_tutorial
    (<[merged_tsv ibd_tutorial := example_merged]> example_files)
  = Some ((example_merged, head 2 example_merged),
          <[merged_tsv ibd_tutorial := example_merged]> example_files).
Proof.
  apply (table_cells_rerun String.leb id ibd 14%nat 20%nat ibd_tutorial
           example_files).
  - unfold table_cells. in_list.
  - exact example_merge_run.
Defined.

(** X6: the two table cells of a notebook do not interfere.  The merge cell
    computes the same table whether or not the subject cell has run before
    it, and the other way round; either order leaves the same files. *)
Theorem table_cells_commute {V : Type} `{!EqDecision V}
    (leb : V → V → bool) (str : V → V)
    nb i j t (fs fs1 fs2 : gmap string (frame V)) res1 res2 :
  (nb, i, j, t) ∈ table_cells →
  subject_cell leb str t fs = Some (res1, fs1) →
  merge_cell str t fs = Some (res2, fs2) →
  ∃ fs12, merge_cell str t fs1 = Some (res2, fs12)
          ∧ subject_cell leb str t fs2 = Some (res1, fs12)
          ∧ (∀ p, p ≠ subject_tsv t → p ≠ merged_tsv t → fs12 !! p = fs !! p).
Proof.
  intros (Hsm & Hse & Hmm & Hme & Hsg)%table_cells_paths.
  rewrite !subject_cell_eq, !merge_cell_eq.
  destruct (fs !! metadata_tsv t) as [m|] eqn:Hm; [|done].
  destruct (fs !! export_tsv t) as [ex|] eqn:Hex; [|done].
  destruct (decide (parsed m)) as [Hpm|]; [|done].
  destruct (decide (parsed m ∧ parsed ex)); [|done].
  destruct (subject_table leb str t m) as [mf1|] eqn:Hmf1; [|done].
  destruct (merged_table str t m ex) as [mf2|] eqn:Hmf2; [|done].
  intros [= <- <-] [= <- <-].
  exists (<[merged_tsv t := mf2]> (<[subject_tsv t := mf1]> fs)).
  rewrite !lookup_insert_ne, Hm, Hex by done.
  rewrite !decide_True, Hmf1, Hmf2 by done. split_and!; [done| |].
  - by rewrite insert_insert_ne.
  - intros p ? ?. by rewrite !lookup_insert_ne.
Qed.

Lemma table_cells_commute_witness :
  ∃ fs12,
    merge_cell id ibd_tutorial
      (<[subject_tsv ibd_tutorial := example_subjects]> example_files)
    = Some ((example_merged, head 2 example_merged), fs12).
Proof.
  destruct (table_cells_commute String.leb id ibd 14%nat 20%nat ibd_tutorial
              example_files
              (<[subject_tsv ibd_tutorial := example_subjects]> example_files)
              (<[merged_tsv ibd_tutorial := example_merged]> example_files)
              (example_subjects, head 5 example_subjects)
              (example_merged, head 2 example_merged))
    as (fs12 & Hm & _).
  - unfold table_cells. in_list.
  - exact example_subject_run.
  - exact example_merge_run.
  - by exists fs12.
Defined.



(** ** Names are bound before they are read *)

Lemma unbound_from_nil bound ss :
  unbound_from bound ss = [] →
  ∀ pre i s post, ss = pre ++ (i, s) :: post →
  ∀ x, x ∈ uses s → x ∈ bound ∨ ∃ j d, (j, d) ∈ pre ∧ x ∈ defines d.
Proof.
  intros Hnil pre. revert bound ss Hnil.
  induction pre as [|[j d] pre IH]; intros bound ss Hnil i s post -> x Hx.
  - simpl in Hnil. apply app_eq_nil in Hnil as [Hnil _].
    apply fmap_nil_inv in Hnil.
    destruct (decide (x ∈ bound)) as [|Hb]; [by left|].
    assert (x ∈ filter (fun x => x ∉ bound) (uses s)) as Hin
      by (by apply list_elem_of_filter).
    rewrite Hnil in Hin. by apply elem_of_nil in Hin.
  - simpl in Hnil. apply app_eq_nil in Hnil as [_ Hnil].
    destruct (IH _ _ Hnil i s post eq_refl x Hx) as [Hin|(j' & d' & ? & ?)].
    + apply elem_of_app in Hin as [?|?]; [|by left].
      right. exists j, d. split; [left|done].
    + right. exists j', d'. split; [by right|done].
Qed.

(** X8: run from top to bottom in a fresh kernel, no cell reads a name that
    nothing has bound: every name a statement reads is bound by an import or
    an assignment of an earlier statement, or is one of the built-in names
    [str], [DeprecationWarning] and [FutureWarning]. *)
Theorem names_are_bound nb pre i s post x :
  nb ∈ notebooks →
  statements nb = pre ++ (i, s) :: post →
  x ∈ uses s →
  x ∈ builtins ∨ ∃ j d, (j, d) ∈ pre ∧ x ∈ defines d.
Proof.
  intros Hnb Hs Hx.
  apply (unbound_from_nil builtins (statements nb)) with i s post; [|done..].
  change (unbound nb = []). clear Hs. revert nb Hnb. apply Forall_forall.
  compute_done.
Qed.

Lemma names_are_bound_witness :
  "q2" ∈ builtins
  ∨ ∃ j d, (j, d) ∈ take 5 (statements tempted) ∧ "q2" ∈ defines d.
Proof.
  refine (names_are_bound tempted (take 5 (statements tempted)) 1%nat
            (SAssign (EName "table")
               (ECall (EAttr (EAttr (EName "q2") "Artifact") "load")
                  [EStr "ECAM-Qiita-10249/table.qza"] []))
            (drop 6 (statements tempted)) "q2" _ _ _).
  - in_notebooks.
  - reflexivity.
  - vm_compute. in_list.
Defined.

Lemma live_true x rest :
  live x rest = true →
  ∃ mid j s post,
    rest = mid ++ (j, s) :: post ∧ x ∈ uses s
    ∧ ∀ k d, (k, d) ∈ mid → x ∉ defines d.
Proof.
  induction rest as [|[j s] rest IH]; [done|]. simpl.
  intros [Hu|[Hd Hl]%andb_prop]%orb_prop.
  - exists [], j, s, rest. split_and!; [done|by apply mem_spec|].
    by intros ?? ?%elem_of_nil.
  - destruct (IH Hl) as (mid & j' & s' & post & -> & Hx & Hmid).
    exists ((j, s) :: mid), j', s', post. split_and!; [done..|].
    intros k d [[= -> ->]|?]%elem_of_cons; [|by eapply Hmid].
    intros Hin%mem_spec. by rewrite Hin in Hd.
Qed.

Lemma dead_from_complete ss pre c s post x :
  ss = pre ++ (c, s) :: post → x ∈ defines s → live x post = false →
  (c, x) ∈ dead_from ss.
Proof.
  revert ss. induction pre as [|[j d] pre IH]; intros ss -> Hx Hl; simpl.
  - apply elem_of_app. left. apply list_elem_of_fmap. exists x.
    split; [done|]. by apply list_elem_of_filter.
  - apply elem_of_app. right. by apply IH.
Qed.

(** X9: the bindings that nothing reads.  The IBD notebook never reads the
    distance matrix of RPCA nor the imported [Metadata]; the Phylogenetic IBD
    notebook never reads the rarefied table it loads, nor [os], [Metadata],
    [np] and [Table]; the TEMPTED notebook never reads the tree it loads, nor
    [os]; every other binding, and every binding of the command-line
    notebook, is read by a later statement before it is rebound. *)
Theorem unused_bindings :
  dead ibd = [(5, "rpca_distance"); (14, "Metadata")]%nat
  ∧ dead phylo_ibd =
      [(2, "os"); (2, "rarefied_table"); (7, "Metadata"); (7, "np");
       (7, "Table")]%nat
  ∧ dead phylo_rpca = []
  ∧ dead tempted = [(1, "os"); (1, "tree")]%nat
  ∧ (∀ nb pre c s post x,
       statements nb = pre ++ (c, s) :: post → x ∈ defines s →
       (c, x) ∉ dead nb →
       ∃ mid j s' post',
         post = mid ++ (j, s') :: post' ∧ x ∈ uses s'
         ∧ ∀ k d, (k, d) ∈ mid → x ∉ defines d).
Proof.
  split_and!; [vm_compute; reflexivity..|].
  intros nb pre c s post x Hs Hx Hdead.
  destruct (live x post) eqn:Hl; [by apply live_true|].
  destruct Hdead. by eapply dead_from_complete.
Qed.

Lemma unused_bindings_witness :
  ∃ mid j s' post',
    drop 6 (statements tempted) = mid ++ (j, s') :: post' ∧ "table" ∈ uses s'
    ∧ ∀ k d, (k, d) ∈ mid → "table" ∉ defines d.
Proof.
  refine (proj2 (proj2 (proj2 (proj2 unused_bindings))) tempted
            (take 5 (statements tempted)) 1%nat
            (SAssign (EName "table")
               (ECall (EAttr (EAttr (EName "q2") "Artifact") "load")
                  [EStr "ECAM-Qiita-10249/table.qza"] []))
            (drop 6 (statements tempted)) "table" _ _ _).
  - reflexivity.
  - simpl. in_list.
  - vm_compute. intros H.
    repeat (apply elem_of_cons in H as [H|H]; [discriminate H|]).
    by apply elem_of_nil in H.
Defined.

(** X10: no notebook writes the same file twice, and the only notebooks
    that write the same files are the IBD and the Phylogenetic IBD notebook:
    run in the same directory, each replaces five results of the other. *)
Theorem results_overwritten :
  (∀ nb, nb ∈ notebooks → NoDup (all_writes nb))
  ∧ overwritten ibd phylo_ibd =
      ["IBD-2538/data/subject-metadata.tsv";
       "IBD-2538/ctf-results/qurro.qzv";
       "IBD-2538/ctf-results/merged_sample_plot_data.tsv";
       "IBD-2538/ctf-results/log_ratio_plot.qzv";
       "IBD-2538/ctf-results/lme_log_ratio.qzv"]
  ∧ overwritten phylo_ibd ibd = overwritten ibd phylo_ibd
  ∧ (∀ a b nb1 nb2,
       notebooks !! a = Some nb1 → notebooks !! b = Some nb2 → a ≠ b →
       overwritten nb1 nb2 ≠ [] → (a, b) ∈ [(0, 1); (1, 0)]%nat).
Proof.
  split_and!; [|vm_compute; reflexivity..|].
  - apply Forall_forall. compute_done.
  - intros a b nb1 nb2 Ha Hb Hab Hov.
    destruct a as [|[|[|[|a]]]]; try done;
      destruct b as [|[|[|[|b]]]]; try done;
      injection Ha as <-; injection Hb as <-;
      first [in_list; fail | destruct Hov; vm_compute; reflexivity].
Qed.

Lemma results_overwritten_witness :
  (0, 1)%nat ∈ [(0, 1); (1, 0)]%nat.
Proof.
  apply (proj2 (proj2 (proj2 results_overwritten)) 0%nat 1%nat ibd phylo_ibd);
    [reflexivity|reflexivity|lia|vm_compute; discriminate].
Defined.

Lemma saved_by_visualizer (o : option (list string)) (p : option string) :
  match o, p with
  | Some [q1; q2; plugin; kind; action], Some path =>
      String.eqb q1 "qiime2" && String.eqb q2 "plugins"
      && mem plugin visualizer_plugins && is_suffix ".qzv" path
  | _, _ => false
  end = true →
  ∃ plugin kind action path,
    o = Some (plugin_action plugin kind action)
    ∧ plugin ∈ visualizer_plugins
    ∧ p = Some path ∧ is_suffix ".qzv" path = true.
Proof.
  destruct o as [[|q1 [|q2 [|plugin [|kind [|action [|??]]]]]]|]; try done.
  destruct p as [path|]; [|done].
  intros (((->%String.eqb_eq & ->%String.eqb_eq)%andb_prop
           & Hp%existsb_exists)%andb_prop & Hs)%andb_prop.
  destruct Hp as (y & Hy%list_elem_of_In & ->%String.eqb_eq).
  by exists y, kind, action, path.
Qed.

(** X11: what the notebooks save is visualizations only.  Every [save] is
    [x.visualization.save(path)] for an [x] bound to the result of an action
    of emperor, empress, qurro or longitudinal, and its path ends in [.qzv];
    so a notebook that calls the plugins through the Python API writes no
    artifact, the results of the factorization among them: every file it
    writes is a [.qzv] visualization or a [.tsv] table. *)
Theorem only_visualizations_saved :
  (∀ nb, nb ∈ notebooks →
     (saved nb).*2 = saves nb
     ∧ ∀ c o p, (c, o, p) ∈ saved nb →
         ∃ plugin kind action path,
           o = Some (plugin_action plugin kind action)
           ∧ plugin ∈ visualizer_plugins
           ∧ p = Some path ∧ is_suffix ".qzv" path = true)
  ∧ (∀ nb, nb ∈ [ibd; phylo_ibd; tempted] →
     ∀ p, p ∈ all_writes nb →
       is_suffix ".qzv" p = true ∨ is_suffix ".tsv" p = true).
Proof.
  split.
  - intros nb Hnb. split.
    + revert nb Hnb. apply Forall_forall. compute_done.
    + intros c o p Hin. apply saved_by_visualizer.
      change ((fun '(_, o, p) =>
                 match o, p with
                 | Some [q1; q2; plugin; kind; action], Some path =>
                     String.eqb q1 "qiime2" && String.eqb q2 "plugins"
                     && mem plugin visualizer_plugins && is_suffix ".qzv" path
                 | _, _ => false
                 end = true) (c, o, p)).
      revert Hin. generalize (c, o, p). apply Forall_forall.
      revert nb Hnb. apply Forall_forall. compute_done.
  - intros nb Hnb. apply Forall_forall. revert nb Hnb. apply Forall_forall.
    compute_done.
Qed.

Lemma only_visualizations_saved_witness :
  is_suffix ".qzv" "ECAM-Qiita-10249/qurro.qzv" = true
  ∨ is_suffix ".tsv" "ECAM-Qiita-10249/qurro.qzv" = true.
Proof.
  apply (proj2 only_visualizations_saved tempted).
  - in_list.
  - vm_compute. in_list.
Defined.

(** X12: no cell creates a directory (the calls of [os.mkdir] are commented
    out), while the IBD notebook writes its first results into
    [IBD-2538/core-metric-output/] and [IBD-2538/ctf-results/], and the
    Phylogenetic IBD notebook into [IBD-2538/ctf-results/], before it has
    read or written any file there.  The two other notebooks write only
    beside files they have read. *)
Theorem no_directory_created :
  (∀ nb c s g, nb ∈ notebooks → (c, s, g) ∈ program nb →
     makes_directory g s = false)
  ∧ unseen_directories ibd =
      ["IBD-2538/core-metric-output/"; "IBD-2538/ctf-results/"]
  ∧ unseen_directories phylo_ibd = ["IBD-2538/ctf-results/"]
  ∧ unseen_directories phylo_rpca = []
  ∧ unseen_directories tempted = [].
Proof.
  split_and!; [|vm_compute; reflexivity..].
  intros nb c s g Hnb Hin.
  change ((fun '(_, s, g) => makes_directory g s = false) (c, s, g)).
  revert Hin. generalize (c, s, g). apply Forall_forall.
  revert nb Hnb. apply Forall_forall.
  repeat (apply Forall_cons; split); [..|apply Forall_nil];
    vm_compute program;
    repeat (apply Forall_cons; split); try apply Forall_nil; reflexivity.
Qed.

Lemma no_directory_created_witness :
  makes_directory ∅ (SShell ["qiime"; "dev"; "refresh-cache"]) = false.
Proof.
  apply (proj1 no_directory_created phylo_rpca 4%nat).
  - in_notebooks.
  - vm_compute. in_list.
Defined.

(** X13: what a gemelli action is passed is, apart from the [q2] module,
    a variable bound by loading a stored artifact or metadata file, or
    bound by one of two preparing actions: in the
    Phylogenetic IBD notebook the table given to the factorization is the
    one [filter_features] has restricted to the tree, and in the TEMPTED
    notebook it is the table [clr_transformation] has transformed, whereas
    Qurro is given the table as it was loaded. *)
Theorem factorization_inputs :
  (∀ nb l, nb ∈ [ibd; phylo_ibd; tempted] → l ∈ links nb →
     to_gemelli l = true →
     var l = "q2" ∨ ∃ q, producer l = Some q ∧ q ∈ input_producers)
  ∧ Link 4 (Some (plugin_action "fragment_insertion" "methods" "filter_features"))
      "table" [] 4
      (plugin_action "gemelli" "actions" "phylogenetic_ctf_with_taxonomy") []
    ∈ links phylo_ibd
  ∧ Link 3 (Some (plugin_action "gemelli" "actions" "clr_transformation"))
      "table_transformed" [] 3
      (plugin_action "gemelli" "actions" "tempted_factorize") []
    ∈ links tempted
  ∧ Link 1 (Some ["qiime2"; "Artifact"; "load"]) "table" [] 9
      (plugin_action "qurro" "actions" "loading_plot") []
    ∈ links tempted.
Proof.
  split_and!; [|compute_done..].
  intros nb l Hnb Hl Hg.
  assert (bool_decide (var l = "q2")
          || match producer l with
             | Some q => bool_decide (q ∈ input_producers)
             | None => false
             end = true) as Hok.
  { revert Hg. revert l Hl.
    apply (proj1 (Forall_forall
             (fun l => to_gemelli l = true →
                bool_decide (var l = "q2")
                || match producer l with
                   | Some q => bool_decide (q ∈ input_producers)
                   | None => false
                   end = true) (links nb))).
    revert nb Hnb. apply Forall_forall. compute_done. }
  apply orb_prop in Hok as [Hv|Hp].
  - left. by apply bool_decide_eq_true in Hv.
  - right. destruct (producer l) as [q|]; [|done].
    exists q. split; [done|by apply bool_decide_eq_true in Hp].
Qed.

Lemma factorization_inputs_witness :
  var (Link 3 (Some (plugin_action "gemelli" "actions" "clr_transformation"))
         "table_transformed" [] 3
         (plugin_action "gemelli" "actions" "tempted_factorize") []) = "q2"
  ∨ ∃ q, producer
           (Link 3 (Some (plugin_action "gemelli" "actions" "clr_transformation"))
              "table_transformed" [] 3
              (plugin_action "gemelli" "actions" "tempted_factorize") [])
         = Some q ∧ q ∈ input_producers.
Proof.
  apply (proj1 factorization_inputs tempted).
  - in_list.
  - compute_done.
  - reflexivity.
Defined.

(** X14: the merge cell reads the file [sample_plot_data.tsv], which no
    cell writes (an earlier cell saves the Qurro visualization); without
    that file the merge cell stops with an exception, also when the subject
    cell has run before it. *)
Theorem export_must_be_supplied {V : Type} `{!EqDecision V}
    (leb : V → V → bool) (str : V → V)
    nb i j t (fs : gmap string (frame V)) :
  (nb, i, j, t) ∈ table_cells →
  fs !! export_tsv t = None →
  export_tsv t ∈ inputs nb
  ∧ (export_tsv t ∉ all_writes nb)
  ∧ (∃ c p, (c, Some (plugin_action "qurro" "actions" "loading_plot"), Some p)
              ∈ saved nb ∧ (c < j)%nat)
  ∧ merge_cell str t fs = None
  ∧ ∀ res fs1, subject_cell leb str t fs = Some (res, fs1) →
               merge_cell str t fs1 = None.
Proof.
  intros Hcell Hex.
  pose proof (table_cells_paths _ _ _ _ Hcell) as (_ & Hse & _).
  assert (∀ gs : gmap string (frame V),
            gs !! export_tsv t = None → merge_cell str t gs = None) as Hfail.
  { intros gs Hgs. rewrite merge_cell_eq, Hgs.
    by destruct (gs !! metadata_tsv t). }
  split_and!.
  - revert Hcell. clear. revert nb i j t.
    assert (Forall (fun '(nb, i, j, t) => export_tsv t ∈ inputs nb) table_cells)
      as H by compute_done.
    intros nb i j t Hin. rewrite Forall_forall in H. apply (H _ Hin).
  - revert Hcell. clear. revert nb i j t.
    assert (Forall (fun '(nb, i, j, t) => export_tsv t ∉ all_writes nb)
              table_cells) as H by compute_done.
    intros nb i j t Hin. rewrite Forall_forall in H. apply (H _ Hin).
  - clear Hex Hfail Hse. unfold table_cells in Hcell.
    repeat (apply elem_of_cons in Hcell as [Hc|Hcell];
            [injection Hc as -> _ -> _|]); [..|by apply elem_of_nil in Hcell].
    + exists 18%nat, "IBD-2538/ctf-results/qurro.qzv". split; [compute_done|lia].
    + exists 11%nat, "IBD-2538/ctf-results/qurro.qzv". split; [compute_done|lia].
    + exists 9%nat, "ECAM-Qiita-10249/qurro.qzv". split; [compute_done|lia].
  - by apply Hfail.
  - intros res fs1 Hrun. apply Hfail.
    rewrite subject_cell_eq in Hrun.
    destruct (fs !! metadata_tsv t) as [m|]; [|done].
    destruct (decide (parsed m)); [|done].
    destruct (subject_table leb str t m); [|done].
    injection Hrun as _ <-. by rewrite lookup_insert_ne.
Qed.

Lemma export_must_be_supplied_witness :
  merge_cell id ibd_tutorial
    (<[metadata_tsv ibd_tutorial := example_metadata]> ∅) = None.
Proof.
  refine (proj1 (proj2 (proj2 (proj2
            (export_must_be_supplied String.leb id ibd 14%nat 20%nat
               ibd_tutorial _ _ _)))));
    [unfold table_cells; in_list|reflexivity].
Defined.


(** X15: when the sample metadata table gains rows after the ones it had,
    its index, its columns and the earlier rows being read as before, no
    value that is in the subject table changes: every subject keeps its
    row, and in it every value that was present; the new rows can only fill
    values that were missing and add subjects.  (Lines appended to the file
    that make [read_csv] read the earlier rows with other values, as a
    change of a column's type does, are not covered.) *)
Theorem subject_values_stable {V : Type} `{!EqDecision V}
    (leb : V → V → bool) (str : V → V)
    t (fs fs' : gmap string (frame V)) m m' more mf shown gs mf' shown' gs' :
  fs !! metadata_tsv t = Some m →
  fs' !! metadata_tsv t = Some m' →
  index_name m' = index_name m → columns m' = columns m →
  rows m' = rows m ++ more →
  subject_cell leb str t fs = Some ((mf, shown), gs) →
  subject_cell leb str t fs' = Some ((mf', shown'), gs') →
  ∀ r, r ∈ rows mf →
    ∃ r', r' ∈ rows mf' ∧ r'.1 = r.1
          ∧ Forall2 (fun a b => a = None ∨ b = a) r.2 r'.2.
Proof.
  intros Hm Hm' Hi Hc Hr. rewrite !subject_cell_eq, Hm, Hm'.
  destruct (decide (parsed m)); [|done].
  destruct (decide (parsed m')); [|done].
  destruct (subject_table leb str t m) as [x|] eqn:Hx; [|done].
  destruct (subject_table leb str t m') as [x'|] eqn:Hx'; [|done].
  intros [= <- _ _] [= <- _ _].
  by eapply subject_table_stable.
Qed.

Lemma subject_values_stable_witness :
  ∃ r', r' ∈ rows example_subjects_more ∧ r'.1 = "s2"
        ∧ Forall2 (fun a b => a = None ∨ b = a)
            [Some "Crohns"; Some "quiescent"] r'.2.
Proof.
  refine (subject_values_stable String.leb id ibd_tutorial
            example_files
            (<[metadata_tsv ibd_tutorial := example_metadata_more]> ∅)
            example_metadata example_metadata_more
            [("a5", [Some "4"; Some "s3"; Some "UC"; None]);
             ("a6", [Some "5"; Some "s2"; Some "UC"; Some "active"])]
            example_subjects (head 5 example_subjects)
            (<[subject_tsv ibd_tutorial := example_subjects]> example_files)
            example_subjects_more (head 5 example_subjects_more)
            (<[subject_tsv ibd_tutorial := example_subjects_more]>
               (<[metadata_tsv ibd_tutorial := example_metadata_more]> ∅))
            _ _ _ _ _ _ _ ("s2", [Some "Crohns"; Some "quiescent"]) _).
  - vm_compute. reflexivity.
  - vm_compute. reflexivity.
  - reflexivity.
  - reflexivity.
  - reflexivity.
  - exact example_subject_run.
  - vm_compute. reflexivity.
  - unfold example_subjects. simpl. in_list.
Defined.

(** X16: no assignment rebinds a name that an import has bound, and a
    notebook run a second time in the namespace its first run has left
    resolves every call as it did the first time: it performs the same
    effects, cell by cell. *)
Theorem rerun_same_effects nb :
  nb ∈ notebooks →
  (∀ x, x ∈ imported nb → x ∉ assigned nb)
  ∧ is_Some (run nb)
  ∧ rerun nb = run nb.
Proof.
  intros Hnb.
  assert (Forall (fun x => x ∉ assigned nb) (imported nb)
          ∧ is_Some (run nb) ∧ rerun nb = run nb) as (H1 & H2 & H3).
  { revert nb Hnb. apply Forall_forall. compute_done. }
  rewrite Forall_forall in H1. done.
Qed.

Lemma rerun_same_effects_witness : rerun ibd = run ibd.
Proof.
  refine (proj2 (proj2 (rerun_same_effects ibd _))). in_notebooks.
Defined.

(** X17: in the command-line notebook the commands after the factorization
    take every artifact they read from it: each file they are given is the
    sample metadata or a file the gemelli command of an earlier cell has
    written; each of the five files the gemelli command writes is read by a
    later command; and what the later commands write are [.qzv]
    visualizations that no command reads. *)
Theorem cli_results_consumed :
  (∀ i plugin p, (i, plugin, p) ∈ cli_reads phylo_rpca → plugin ≠ "gemelli" →
     p = "qiime2-moving-pictures-tutorial/sample-metadata.tsv"
     ∨ ∃ k, (k, "gemelli", p) ∈ cli_writes phylo_rpca ∧ (k < i)%nat)
  ∧ (∀ k p, (k, "gemelli", p) ∈ cli_writes phylo_rpca →
       ∃ i plugin, (i, plugin, p) ∈ cli_reads phylo_rpca ∧ (k < i)%nat)
  ∧ length (filter (fun w => w.1.2 = "gemelli") (cli_writes phylo_rpca)) = 5%nat
  ∧ (∀ i plugin p, (i, plugin, p) ∈ cli_writes phylo_rpca →
       plugin ≠ "gemelli" →
       is_suffix ".qzv" p = true
       ∧ ∀ j q, (j, q, p) ∉ cli_reads phylo_rpca).
Proof.
  split_and!.
  - intros i plugin p Hin Hne.
    assert (Forall (fun r : nat * string * string =>
              r.1.2 = "gemelli"
              ∨ r.2 = "qiime2-moving-pictures-tutorial/sample-metadata.tsv"
              ∨ Exists (fun w : nat * string * string =>
                          w.1.2 = "gemelli" ∧ w.2 = r.2 ∧ (w.1.1 < r.1.1)%nat)
                  (cli_writes phylo_rpca)) (cli_reads phylo_rpca)) as Hall
      by compute_done.
    rewrite Forall_forall in Hall.
    destruct (Hall _ Hin) as [?|[?|Hex]]; [done|by left|right].
    apply Exists_exists in Hex as ([[k pl] q] & Hw & Hpl & Hq & Hk).
    simpl in *. subst. by exists k.
  - intros k p Hin.
    assert (Forall (fun w : nat * string * string =>
              w.1.2 = "gemelli" →
              Exists (fun r : nat * string * string =>
                        r.2 = w.2 ∧ (w.1.1 < r.1.1)%nat)
                (cli_reads phylo_rpca)) (cli_writes phylo_rpca)) as Hall
      by compute_done.
    rewrite Forall_forall in Hall.
    destruct (proj1 (Exists_exists _ _) (Hall _ Hin eq_refl))
      as ([[i pl] q] & Hr & Hq & Hi).
    simpl in *. subst. by exists i, pl.
  - vm_compute. reflexivity.
  - intros i plugin p Hin Hne.
    assert (Forall (fun w : nat * string * string =>
              w.1.2 = "gemelli"
              ∨ (is_suffix ".qzv" w.2 = true
                 ∧ Forall (fun r : nat * string * string => r.2 ≠ w.2)
                     (cli_reads phylo_rpca))) (cli_writes phylo_rpca)) as Hall
      by compute_done.
    rewrite Forall_forall in Hall.
    destruct (Hall _ Hin) as [?|[Hs Hr]]; [done|]. split; [done|].
    intros j q Hjq. rewrite Forall_forall in Hr. by apply (Hr _ Hjq).
Qed.

Lemma cli_results_consumed_witness :
  ∃ i plugin,
    (i, plugin, "qiime2-moving-pictures-tutorial/phylo-distance.qza")
      ∈ cli_reads phylo_rpca ∧ (5 < i)%nat.
Proof.
  apply (proj1 (proj2 cli_results_consumed)). vm_compute. in_list.
Defined.
